(** * Verification of the analytics engine of [src/App.js]

    The two functions of the dashboard that compute something,
    [parseSheetData] and [computeSeries], are embedded below as Rocq
    functions and the statements made about them in the specification are
    proved or refuted.  The component that calls them, [Portfolio], is
    embedded as a state, its file handler and its rendering, and further
    properties of the three are proved.

    JavaScript numbers are IEEE 754 binary64 values; they are modelled by the
    Standard Library's [spec_float] at precision 53 and maximal exponent
    1024, whose operations are the correctly rounded ones.  Quantities that
    the program only uses as small integers (time values, years, months) are
    modelled in [Z]: every one of them is below [2^53] in magnitude, where
    binary64 arithmetic is exact. *)

From Stdlib Require Import ZArith List String Ascii Bool Lia.
From Stdlib Require Import DecimalString DecimalPos.
From Stdlib Require Import Sorting.Permutation Sorting.Sorted.
From Stdlib Require Import Floats.SpecFloat.
Import ListNotations.

Local Open Scope Z_scope.

(* ================================================================== *)
(** * JavaScript numbers *)
(* ================================================================== *)

Module Num.

Definition prec : Z := 53.
Definition emax : Z := 1024.

Definition number : Type := spec_float.

Definition NaN : number := S754_nan.
Definition PInf : number := S754_infinity false.
Definition NInf : number := S754_infinity true.
Definition PZero : number := S754_zero false.

Definition sub : number -> number -> number := SFsub prec emax.
Definition mul : number -> number -> number := SFmul prec emax.
Definition div : number -> number -> number := SFdiv prec emax.

(** [a < b], [a > b] and [a <= b] on numbers: all false when an operand is
    NaN, and the two zeros are equal. *)
Definition ltb (a b : number) : bool := SFltb a b.
Definition gtb (a b : number) : bool := SFltb b a.
Definition leb (a b : number) : bool := SFleb a b.

Definition isNaN (a : number) : bool :=
  match a with S754_nan => true | _ => false end.

Definition isFinite (a : number) : bool :=
  match a with S754_nan | S754_infinity _ => false | _ => true end.

(** ToBoolean on a number: false for [+0], [-0] and NaN. *)
Definition truthy (a : number) : bool :=
  match a with S754_nan | S754_zero _ => false | _ => true end.

(** The number nearest to the rational [(-1)^s * n / d], ties to even:
    the value of a decimal literal with numerator [n] and power of ten
    [d].  The quotient is computed exactly and rounded once. *)
Definition ofRatio (s : bool) (n d : positive) : number :=
  let '(mz, ez, lz) := SFdiv_core_binary prec emax (Zpos n) 0 (Zpos d) 0 in
  binary_round_aux prec emax s mz ez lz.

(** A (small) integer as a number. *)
Definition ofZ (z : Z) : number :=
  match z with
  | Z0 => PZero
  | Zpos p => ofRatio false p 1
  | Zneg p => ofRatio true p 1
  end.

Definition hundred : number := Eval vm_compute in ofZ 100.
Definition one : number := Eval vm_compute in ofZ 1.

(** [10^21 <= m * 2^e], exactly. *)
Definition ge_1e21 (m : positive) (e : Z) : bool :=
  match e with
  | Zneg k => 10 ^ 21 * 2 ^ Zpos k <=? Zpos m
  | _ => 10 ^ 21 <=? Zpos m * 2 ^ e
  end.

(** The integer [n] for which [n / 100] is nearest to [m * 2^e], the
    larger one when there are two (step 10.a of [Number.prototype.toFixed]
    with two fraction digits). *)
Definition scaled100 (m : positive) (e : Z) : Z :=
  match e with
  | Zneg k => (200 * Zpos m + 2 ^ Zpos k) / 2 ^ (Zpos k + 1)
  | _ => 100 * Zpos m * 2 ^ e
  end.

(** [Number(x.toFixed(2))].

    [toFixed] returns ["NaN"], ["Infinity"] and ["-Infinity"] for the
    values that are not finite and the shortest round-tripping literal for
    [|x| >= 10^21]: [Number] reads each of them back as [x].  Otherwise the
    string is the sign (["-"] only when [x < 0], so not for [-0]) followed
    by the digits of [scaled100] with a point before the last two, and
    [Number] returns the number nearest to that decimal; the string
    ["-0.00"] is read as [-0]. *)
Definition toFixed2 (x : number) : number :=
  match x with
  | S754_nan => S754_nan
  | S754_infinity s => S754_infinity s
  | S754_zero _ => PZero
  | S754_finite s m e =>
      if ge_1e21 m e then x
      else match scaled100 m e with
           | Zpos n => ofRatio s n 100
           | _ => S754_zero s
           end
  end.

End Num.

Import Num.

(* ================================================================== *)
(** * JavaScript strings *)
(* ================================================================== *)

Module Str.

Local Open Scope string_scope.

(** [String(z)] for an integer [z]. *)
Definition ofZ (z : Z) : string :=
  DecimalString.NilZero.string_of_int (Z.to_int z).

(** [s.padStart(2, "0")]. *)
Definition padStart2 (s : string) : string :=
  match String.length s with
  | O => "00"
  | S O => "0" ++ s
  | _ => s
  end.

(** [s.padStart(6, "0")], for the expanded years of [toISOString]. *)
Definition padStart6 (s : string) : string :=
  string_of_list_ascii
    (repeat "0"%char (6 - String.length s)) ++ s.

(** [s.padStart(4, "0")]. *)
Definition padStart4 (s : string) : string :=
  string_of_list_ascii
    (repeat "0"%char (4 - String.length s)) ++ s.

(** [s.split(c)] for a one-character separator: the pieces between the
    occurrences of [c], one more than there are occurrences. *)
Fixpoint split (c : ascii) (s : string) : list string :=
  match s with
  | EmptyString => [EmptyString]
  | String a s' =>
      if Ascii.eqb a c then EmptyString :: split c s'
      else match split c s' with
           | p :: ps => String a p :: ps
           | [] => [String a EmptyString]
           end
  end.

Definition digitOf (a : ascii) : option Z :=
  let n := Z.of_nat (nat_of_ascii a) in
  if ((48 <=? n) && (n <=? 57))%Z then Some (n - 48) else None.

Fixpoint digitsValue (acc : Z) (s : string) : option Z :=
  match s with
  | EmptyString => Some acc
  | String a s' =>
      match digitOf a with
      | Some d => digitsValue (10 * acc + d) s'
      | None => None
      end
  end.

(** [Number(s)] for the strings [computeSeries] applies it to, the pieces
    of a month key: the empty string is [0], a string of decimal digits is
    its value, and [None] stands for NaN.  (On other numeric literals,
    which [Number] accepts and [computeSeries] never builds, this
    definition says NaN.) *)
Definition toInteger (s : string) : option Z := digitsValue 0 s.

(** The text of an integer-valued number in a template literal; NaN
    prints as ["NaN"]. *)
Definition ofInteger (z : option Z) : string :=
  match z with
  | Some z => ofZ z
  | None => "NaN"
  end.

End Str.

(* ================================================================== *)
(** * JavaScript dates *)
(* ================================================================== *)

Module JSDate.

(** A [Date] object holds a time value: an integral number of
    milliseconds since the epoch, at most [8.64e15] in magnitude, or NaN
    (an invalid date, [None] here). *)
Definition Date : Type := option Z.

Definition msPerDay : Z := 86400000.
Definition maxTime : Z := 8640000000000000.

(** The integral part of a finite number (ToIntegerOrInfinity). *)
Definition truncate (x : number) : option Z :=
  match x with
  | S754_zero _ => Some 0
  | S754_finite s m e =>
      let a := match e with
               | Zneg k => Zpos m / 2 ^ Zpos k
               | _ => Zpos m * 2 ^ e
               end in
      Some (if s then - a else a)
  | _ => None
  end.

(** TimeClip. *)
Definition TimeClip (x : number) : Date :=
  match truncate x with
  | Some t => if Z.abs t <=? maxTime then Some t else None
  | None => None
  end.

(** [Number(date)], the operand of [isNaN(date)] and of [a.date - b.date]. *)
Definition valueOf (d : Date) : number :=
  match d with
  | Some t => Num.ofZ t
  | None => NaN
  end.

(** Year, month (1..12) and day of the month of a day number, in the
    proleptic Gregorian calendar (YearFromTime, MonthFromTime and
    DateFromTime of the language specification). *)
Definition civil (day : Z) : Z * Z * Z :=
  let z := day + 719468 in
  let era := z / 146097 in
  let doe := z mod 146097 in
  let yoe := (doe - doe / 1460 + doe / 36524 - doe / 146096) / 365 in
  let doy := doe - (365 * yoe + yoe / 4 - yoe / 100) in
  let mp := (5 * doy + 2) / 153 in
  let d := doy - (153 * mp + 2) / 5 + 1 in
  let m := if mp <? 10 then mp + 3 else mp - 9 in
  let y := yoe + era * 400 + (if m <=? 2 then 1 else 0) in
  (y, m, d).

Definition YearFromTime (t : Z) : Z := fst (fst (civil (t / msPerDay))).
Definition MonthFromTime (t : Z) : Z := snd (fst (civil (t / msPerDay))) - 1.
Definition DateFromTime (t : Z) : Z := snd (civil (t / msPerDay)).

Section LocalTime.

(** The offset of local time from UTC at a given time value, in
    milliseconds: a property of the machine the page runs on. *)
Variable LocalTZA : Z -> Z.

Definition LocalTime (t : Z) : Z := t + LocalTZA t.

(** [date.getFullYear()] and [date.getMonth()]; [None] is NaN. *)
Definition getFullYear (d : Date) : option Z :=
  option_map (fun t => YearFromTime (LocalTime t)) d.

Definition getMonth (d : Date) : option Z :=
  option_map (fun t => MonthFromTime (LocalTime t)) d.

End LocalTime.

(** [date.toISOString().slice(0, 10)]; [toISOString] throws a
    [RangeError] on an invalid date ([None]).  Years outside 0..9999 are
    written with a sign and six digits, so the first ten characters then
    stop inside the month. *)
Definition isoYear (y : Z) : string :=
  if ((0 <=? y) && (y <=? 9999))%Z then Str.padStart4 (Str.ofZ y)
  else ((if (y <? 0)%Z then "-" else "+") ++ Str.padStart6 (Str.ofZ (Z.abs y)))%string.

Definition toISODate (d : Date) : option string :=
  match d with
  | Some t =>
      Some (String.substring 0 10
              (isoYear (YearFromTime t) ++ "-"
               ++ Str.padStart2 (Str.ofZ (MonthFromTime t + 1)) ++ "-"
               ++ Str.padStart2 (Str.ofZ (DateFromTime t))))%string
  | None => None
  end.

End JSDate.

Import JSDate.

(* ================================================================== *)
(** * Arrays and objects *)
(* ================================================================== *)

(** [Array.prototype.sort]: the order it produces is the stable one (the
    language requires it since ECMAScript 2019), which for a consistent
    comparator is the result of inserting the elements one by one, each
    before the first element it does not have to follow.  [after x y] says
    that the comparator is positive on [(x, y)]. *)
Section Sort.

Context {A : Type}.
Variable after : A -> A -> bool.

Fixpoint insert (x : A) (l : list A) : list A :=
  match l with
  | [] => [x]
  | y :: l' => if after x y then y :: insert x l' else x :: l
  end.

Fixpoint sort (l : list A) : list A :=
  match l with
  | [] => []
  | x :: l' => insert x (sort l')
  end.

End Sort.

(** A plain object used as a dictionary: its own properties in creation
    order.  [Object.keys] lists them in that order when no key is an array
    index, which holds for the keys of [byMonth] (each contains a hyphen);
    [computeSeries] never lists the keys of its other object, and for the
    page, which does, [ownKeys] below gives the order in general.  No key
    the program builds names a property of [Object.prototype]. *)
Module Obj.

Section Obj.

Context {V : Type}.

Definition t : Type := list (string * V).

(** [o[k]]; [None] is [undefined]. *)
Fixpoint get (o : t) (k : string) : option V :=
  match o with
  | [] => None
  | (k', v) :: o' => if String.eqb k' k then Some v else get o' k
  end.

(** [o[k] = v]. *)
Fixpoint set (o : t) (k : string) (v : V) : t :=
  match o with
  | [] => [(k, v)]
  | (k', v') :: o' =>
      if String.eqb k' k then (k', v) :: o' else (k', v') :: set o' k v
  end.

(** [Object.keys(o)]. *)
Definition keys (o : t) : list string := map fst o.

End Obj.

Arguments t V : clear implicits.

End Obj.

(* ================================================================== *)
(** * The program *)
(* ================================================================== *)

(** The values a cell of the decoded sheet can hold. *)
Inductive value : Type :=
| VUndefined
| VNull
| VBool (b : bool)
| VNumber (x : number)
| VString (s : string)
| VDate (d : Date).

(** A row of [XLSX.utils.sheet_to_json]: an object from column names to
    cell values. *)
Definition RawRecord : Type := Obj.t value.

(** [r[k]] on a raw record: [undefined] when the column is missing. *)
Definition field (r : RawRecord) (k : string) : value :=
  match Obj.get r k with
  | Some v => v
  | None => VUndefined
  end.

Record Row : Type := { date : Date; nav : number }.

Module EquityPoint.
Record t : Type := { date : string; value : number }.
End EquityPoint.

Module DrawdownPoint.
Record t : Type := { date : string; drawdown : number }.
End DrawdownPoint.

Module MonthlyReturn.
(** [ret] is [null] ([None]) or a number. *)
Record t : Type := { month : string; ret : option number }.
End MonthlyReturn.

Record Series : Type := {
  equity : list EquityPoint.t;
  drawdown : list DrawdownPoint.t;
  monthReturnsByYear : Obj.t (list MonthlyReturn.t)
}.

Section Program.

(** What the runtime decides: how [Number] reads a string, how [Date]
    parses one (the result is NaN or a time value, and the formats
    accepted beyond ISO 8601 differ between engines), and the offset of
    local time. *)
Variable StringToNumber : string -> number.
Variable DateParse : string -> number.
Variable LocalTZA : Z -> Z.

(** [Number(v)]. *)
Definition ToNumber (v : value) : number :=
  match v with
  | VUndefined => NaN
  | VNull => PZero
  | VBool b => if b then one else PZero
  | VNumber x => x
  | VString s => StringToNumber s
  | VDate d => valueOf d
  end.

(** [new Date(v)]. *)
Definition newDate (v : value) : Date :=
  match v with
  | VDate d => d
  | VString s => TimeClip (DateParse s)
  | _ => TimeClip (ToNumber v)
  end.

(** [isNaN(d)] for a date [d]. *)
Definition isNaNDate (d : Date) : bool :=
  match d with Some _ => false | None => true end.

(** The callback of [raw.map]. *)
Definition toRow (r : RawRecord) : Row :=
  {| date := newDate (field r "Date"); nav := ToNumber (field r "Nav") |}.

(** The callback of [filter]; [r.date instanceof Date] and
    [typeof r.nav === "number"] hold for every row [toRow] builds. *)
Definition keep (r : Row) : bool :=
  negb (isNaNDate (date r)) && negb (isNaN (nav r)).

(** [a.date - b.date > 0].  The difference of two time values is computed
    in binary64 and may be rounded, but its sign is that of the exact
    difference; an invalid date makes it NaN, which [sort] reads as 0. *)
Definition dateAfter (a b : Row) : bool :=
  match date a, date b with
  | Some ta, Some tb => tb <? ta
  | _, _ => false
  end.

Definition parseSheetData (raw : list RawRecord) : list Row :=
  match raw with
  | [] => []
  | _ => sort dateAfter (filter keep (map toRow raw))
  end.

(** ** [computeSeries] *)

(** [Number(((r.nav / base) * 100).toFixed(2))]. *)
Definition equityValue (base : number) (r : Row) : number :=
  toFixed2 (mul (div (nav r) base) hundred).

(** One step of the first [forEach]: [toISOString] throws on an invalid
    date, which is [None] here. *)
Definition equityPoint (base : number) (r : Row) : option EquityPoint.t :=
  match toISODate (date r) with
  | Some d =>
      Some {| EquityPoint.date := d; EquityPoint.value := equityValue base r |}
  | None => None
  end.

Fixpoint equityFrom (base : number) (rows : list Row) : option (list EquityPoint.t) :=
  match rows with
  | [] => Some []
  | r :: rows' =>
      match equityPoint base r with
      | Some pt =>
          match equityFrom base rows' with
          | Some pts => Some (pt :: pts)
          | None => None
          end
      | None => None
      end
  end.

(** The second [forEach], from the value [peak] has before it. *)
Fixpoint drawdownFrom (peak : number) (eq : list EquityPoint.t) : list DrawdownPoint.t :=
  match eq with
  | [] => []
  | pt :: eq' =>
      let peak := if gtb (EquityPoint.value pt) peak then EquityPoint.value pt else peak in
      let dd := mul (div (sub (EquityPoint.value pt) peak) peak) hundred in
      {| DrawdownPoint.date := EquityPoint.date pt;
         DrawdownPoint.drawdown := toFixed2 dd |} :: drawdownFrom peak eq'
  end.

(** The value of [peak] after the second [forEach] has run over [eq],
    from the value it has before. *)
Definition peakAfter (peak : number) (eq : list EquityPoint.t) : number :=
  fold_left (fun peak pt =>
               if gtb (EquityPoint.value pt) peak then EquityPoint.value pt else peak)
            eq peak.

(** The key of a row in [byMonth]. *)
Definition monthKey (r : Row) : string :=
  let y := getFullYear LocalTZA (date r) in
  let m := option_map (fun m => m + 1) (getMonth LocalTZA (date r)) in
  (Str.ofInteger y ++ "-" ++ Str.padStart2 (Str.ofInteger m))%string.

Definition bucket (byMonth : Obj.t number) (r : Row) : Obj.t number :=
  Obj.set byMonth (monthKey r) (nav r).

Definition prevKey (y mm : string) : string :=
  let mmNum := Str.toInteger mm in
  match mmNum with
  | Some 1 => (Str.ofInteger (option_map (fun n => n - 1) (Str.toInteger y)) ++ "-12")%string
  | _ => (y ++ "-" ++ Str.padStart2 (Str.ofInteger (option_map (fun n => n - 1) mmNum)))%string
  end.

(** [prevVal && prevVal > 0 ? (val / prevVal - 1) * 100 : null], then the
    rounding of the value pushed. *)
Definition monthRet (val : number) (prevVal : option number) : option number :=
  match prevVal with
  | Some p =>
      if truthy p && gtb p PZero
      then Some (toFixed2 (mul (sub (div val p) one) hundred))
      else None
  | None => None
  end.

(** One step of the last [forEach], on the key [k].  Every key holds a
    hyphen, so [k.split("-")] has two pieces at least; were one missing,
    [y] or [mm] would be [undefined], which prints as ["undefined"] and
    which [Number] reads as NaN. *)
Definition monthStep (byMonth : Obj.t number)
    (acc : Obj.t (list MonthlyReturn.t)) (k : string) : Obj.t (list MonthlyReturn.t) :=
  let parts := Str.split "-" k in
  let y := nth 0 parts "undefined"%string in
  let mm := nth 1 parts "undefined"%string in
  let val := match Obj.get byMonth k with Some v => v | None => NaN end in
  let prevVal := Obj.get byMonth (prevKey y mm) in
  let entry := {| MonthlyReturn.month := mm; MonthlyReturn.ret := monthRet val prevVal |} in
  Obj.set acc y (match Obj.get acc y with
                 | Some l => l ++ [entry]
                 | None => [entry]
                 end).

Definition byMonthOf (rows : list Row) : Obj.t number :=
  fold_left bucket rows [].

Definition keysSorted (byMonth : Obj.t number) : list string :=
  sort (fun a b => String.ltb b a) (Obj.keys byMonth).

Definition monthReturnsOf (rows : list Row) : Obj.t (list MonthlyReturn.t) :=
  let byMonth := byMonthOf rows in
  fold_left (monthStep byMonth) (keysSorted byMonth) [].

(** [None] is an exception thrown out of the function. *)
Definition computeSeries (rows : list Row) : option Series :=
  match rows with
  | [] => Some {| equity := []; drawdown := []; monthReturnsByYear := [] |}
  | r0 :: _ =>
      let base := nav r0 in
      match equityFrom base rows with
      | Some eq =>
          Some {| equity := eq;
                  drawdown := drawdownFrom NInf eq;
                  monthReturnsByYear := monthReturnsOf rows |}
      | None => None
      end
  end.

End Program.

(* ================================================================== *)
(** * The page, [Portfolio] *)
(* ================================================================== *)

(** [Object.keys] of any plain object: the keys that are array indices
    come first, in ascending numeric order, the others follow in creation
    order.  An array index is the canonical text of an integer from [0]
    to [2^32 - 2]; the year keys of [monthReturnsByYear] are of this
    kind. *)
Definition isArrayIndex (k : string) : bool :=
  match Str.toInteger k with
  | Some n => String.eqb (Str.ofZ n) k && (n <=? 4294967294)
  | None => false
  end.

Definition indexOf (k : string) : Z :=
  match Str.toInteger k with
  | Some n => n
  | None => 0
  end.

Definition ownKeys {V : Type} (o : Obj.t V) : list string :=
  sort (fun a b => indexOf b <? indexOf a) (filter isArrayIndex (Obj.keys o))
  ++ filter (fun k => negb (isArrayIndex k)) (Obj.keys o).

(** A bar of a monthly chart. *)
Module Bar.
Record t : Type := { name : string; ret : number }.
End Bar.

(** [ret || 0]: [null], NaN and both zeros give [0]. *)
Definition orZero (ret : option number) : number :=
  match ret with
  | Some x => if truthy x then x else PZero
  | None => PZero
  end.

(** [monthReturnsByYear[year].map((m) => ({ name: m.month, ret: m.ret || 0 }))]. *)
Definition barsOf (l : list MonthlyReturn.t) : list Bar.t :=
  map (fun m => {| Bar.name := MonthlyReturn.month m;
                   Bar.ret := orZero (MonthlyReturn.ret m) |}) l.

(** The callback of [.map((year) => ...)] over the years: the year and
    the data of its bar chart.  Reading a year the object does not have
    gives [undefined], whose [map] throws a [TypeError] ([None]). *)
Fixpoint chartsOf (m : Obj.t (list MonthlyReturn.t)) (years : list string)
    : option (list (string * list Bar.t)) :=
  match years with
  | [] => Some []
  | year :: years' =>
      match Obj.get m year with
      | Some l =>
          match chartsOf m years' with
          | Some charts => Some ((year, barsOf l) :: charts)
          | None => None
          end
      | None => None
      end
  end.

(** [Object.keys(parsed.monthReturnsByYear).sort().map(...)]. *)
Definition monthlyCharts (m : Obj.t (list MonthlyReturn.t))
    : option (list (string * list Bar.t)) :=
  chartsOf m (sort (fun a b => String.ltb b a) (ownKeys m)).

(** The tick labels of the date axes: [v.slice(0, 7)]. *)
Definition tickFormatter (v : string) : string := String.substring 0 7 v.

Module Page.

(** The state of the component: what [useState] holds. *)
Record State : Type := { rows : list Row; fileName : string }.

Definition initial : State := {| rows := []; fileName := "" |}.

(** A file the user picks: its name and what [XLSX.read] and
    [sheet_to_json] make of its bytes, the records of the first sheet;
    [None] when reading the file or decoding it throws. *)
Record File : Type := { name : string; sheet : option (list RawRecord) }.

(** What the page draws below the file input. *)
Inductive Body : Type :=
| Prompt
| Charts (equity : list EquityPoint.t) (drawdown : list DrawdownPoint.t)
         (monthly : list (string * list Bar.t)).

Record View : Type := { label : string; body : Body }.

Definition noFile : string :=
  "No file uploaded â€” upload the Excel with Date and Nav columns".

Section Page.

Variable StringToNumber : string -> number.
Variable DateParse : string -> number.
Variable LocalTZA : Z -> Z.

(** [onFile] up to its [await]: no file leaves the state alone, a file
    sets the name shown. *)
Definition onFileStart (st : State) (f : option File) : State :=
  match f with
  | None => st
  | Some f => {| rows := rows st; fileName := name f |}
  end.

(** [onFile] after its [await], on the state of that moment: the rows are
    replaced when the file is read; when reading throws the handler ends
    there. *)
Definition onFileResume (st : State) (f : File) : State :=
  match sheet f with
  | Some raw => {| rows := parseSheetData StringToNumber DateParse raw;
                   fileName := fileName st |}
  | None => st
  end.

(** [onFile] with nothing else happening while it waits. *)
Definition onFile (st : State) (f : option File) : State :=
  match f with
  | None => st
  | Some f' => onFileResume (onFileStart st f) f'
  end.

(** The two halves of [onFile] are separate steps of the page: handlers
    of several files can be under way at once. *)
Inductive Event : Type :=
| Start (f : option File)
| Resume (f : File).

Definition step (st : State) (e : Event) : State :=
  match e with
  | Start f => onFileStart st f
  | Resume f => onFileResume st f
  end.

Definition run (events : list Event) : State := fold_left step events initial.

(** One rendering of [Portfolio]; [None] when it throws. *)
Definition render (st : State) : option View :=
  match computeSeries LocalTZA (rows st) with
  | Some parsed =>
      let label := if String.eqb (fileName st) "" then noFile else fileName st in
      match rows st with
      | [] => Some {| label := label; body := Prompt |}
      | _ :: _ =>
          match monthlyCharts (monthReturnsByYear parsed) with
          | Some monthly =>
              Some {| label := label;
                      body := Charts (equity parsed) (drawdown parsed) monthly |}
          | None => None
          end
      end
  | None => None
  end.

End Page.

End Page.

(* ================================================================== *)
(** * A reference runtime *)
(* ================================================================== *)

(** The theorems below hold for every runtime.  The examples are evaluated
    in this one: [Number] on decimal literals, [Date] on the date-only ISO
    format, local time equal to UTC. *)
Module Runtime.

Local Open Scope string_scope.

Definition isSpace (a : ascii) : bool :=
  let n := nat_of_ascii a in
  (Nat.eqb n 32 || (Nat.leb 9 n && Nat.leb n 13))%bool.

Fixpoint trimStart (s : string) : string :=
  match s with
  | String a s' => if isSpace a then trimStart s' else s
  | EmptyString => s
  end.

Definition rev (s : string) : string :=
  string_of_list_ascii (List.rev (list_ascii_of_string s)).

Definition trim (s : string) : string := rev (trimStart (rev (trimStart s))).

(** The longest prefix of digits, as (value, count), and the rest. *)
Fixpoint digits (acc : Z) (n : Z) (s : string) : Z * Z * string :=
  match s with
  | String a s' =>
      match Str.digitOf a with
      | Some d => digits (10 * acc + d)%Z (n + 1)%Z s'
      | None => (acc, n, s)
      end
  | EmptyString => (acc, n, s)
  end.

(** [(-1)^s * n * 10^(-k)] as a number. *)
Definition decimal (s : bool) (n k : Z) : number :=
  match n with
  | Zpos p =>
      match k with
      | Zneg _ => ofRatio s (Z.to_pos (Zpos p * 10 ^ (- k))) 1
      | _ => ofRatio s p (Z.to_pos (10 ^ k))
      end
  | _ => S754_zero s
  end.

Definition exponent (s : string) : option Z :=
  match s with
  | EmptyString => Some 0%Z
  | String c s' =>
      if (Ascii.eqb c "e" || Ascii.eqb c "E")%bool then
        let '(neg, s'') :=
          match s' with
          | String "-" t => (true, t)
          | String "+" t => (false, t)
          | _ => (false, s')
          end in
        match digits 0 0 s'' with
        | (v, n, EmptyString) =>
            if (0 <? n)%Z then Some (if neg then - v else v)%Z else None
        | _ => None
        end
      else None
  end.

Definition unsignedLiteral (s : bool) (str : string) : number :=
  if String.eqb str "Infinity" then S754_infinity s
  else
    let '(i, ni, r1) := digits 0 0 str in
    let '(f, nf, r2) :=
      match r1 with
      | String "." t => digits i 0 t
      | _ => (i, 0%Z, r1)
      end in
    if (0 <? ni + nf)%Z then
      match exponent r2 with
      | Some e => decimal s f (nf - e)
      | None => NaN
      end
    else NaN.

(** StringToNumber on decimal literals.  Hexadecimal, octal and binary
    literals and white space outside ASCII are not covered (the result
    given for them is NaN). *)
Definition StringToNumber (str : string) : number :=
  match trim str with
  | EmptyString => PZero
  | String "-" t => unsignedLiteral true t
  | String "+" t => unsignedLiteral false t
  | t => unsignedLiteral false t
  end.

(** The day number of a calendar date. *)
Definition daysFromCivil (y m d : Z) : Z :=
  (let y' := if m <=? 2 then y - 1 else y in
   let era := y' / 400 in
   let yoe := y' mod 400 in
   let doy := (153 * (if 2 <? m then m - 3 else m + 9) + 2) / 5 + d - 1 in
   let doe := yoe * 365 + yoe / 4 - yoe / 100 + doy in
   era * 146097 + doe - 719468)%Z.

(** [Date.parse] on [YYYY-MM-DD] with a day the month has, which is
    midnight UTC of that day; NaN on everything else.  Engines read more
    than this (other formats, and some a day up to 31 in a shorter
    month); the examples below stay within the strict format. *)
Definition DateParse (str : string) : number :=
  match Str.split "-" str with
  | [ys; ms; ds] =>
      match String.length ys, String.length ms, String.length ds,
            Str.toInteger ys, Str.toInteger ms, Str.toInteger ds with
      | 4%nat, 2%nat, 2%nat, Some y, Some m, Some d =>
          let day := daysFromCivil y m d in
          if ((1 <=? m) && (m <=? 12) && (1 <=? d)
              && Z.eqb (snd (civil day)) d)%Z
          then Num.ofZ (day * msPerDay) else NaN
      | _, _, _, _, _, _ => NaN
      end
  | _ => NaN
  end.

Definition LocalTZA (t : Z) : Z := 0.

Definition parse := parseSheetData StringToNumber DateParse.
Definition compute := computeSeries LocalTZA.

End Runtime.

(** A raw record with the two columns the program reads. *)
Definition record (d n : value) : RawRecord :=
  [("Date"%string, d); ("Nav"%string, n)].

(** [a] is not later than [b]; both dates are valid. *)
Definition dateLe (a b : Row) : Prop :=
  match date a, date b with
  | Some ta, Some tb => ta <= tb
  | _, _ => False
  end.

(** The rows that carry the date [d]: the same time value, to the
    millisecond, which is what the comparator of [sort] tells apart. *)
Definition onDate (d : Date) (r : Row) : bool :=
  match d, date r with
  | Some t, Some t' => t =? t'
  | None, None => true
  | _, _ => false
  end.

Definition validDate (r : Row) : Prop := isNaNDate (date r) = false.

(** ** Month keys *)

(** Every character is a decimal digit. *)
Fixpoint allDigits (s : string) : bool :=
  match s with
  | EmptyString => true
  | String a s' =>
      match Str.digitOf a with Some _ => allDigits s' | None => false end
  end.

(** The key of month [m] of year [y]. *)
Definition monthKeyOf (y m : Z) : string :=
  (Str.ofZ y ++ "-" ++ Str.padStart2 (Str.ofZ m))%string.

(** The key of the calendar month before month [m] of year [y]. *)
Definition precedingKey (y m : Z) : string :=
  if m =? 1 then monthKeyOf (y - 1) 12 else monthKeyOf y (m - 1).

(** The year and month [computeSeries] reads off a key. *)
Definition yearOf (k : string) : string := nth 0 (Str.split "-" k) "undefined"%string.
Definition monthOf (k : string) : string := nth 1 (Str.split "-" k) "undefined"%string.

(** The entry pushed for the key [k]. *)
Definition entryOf (byMonth : Obj.t number) (k : string) : MonthlyReturn.t :=
  {| MonthlyReturn.month := monthOf k;
     MonthlyReturn.ret :=
       monthRet (match Obj.get byMonth k with Some v => v | None => NaN end)
                (Obj.get byMonth (prevKey (yearOf k) (monthOf k))) |}.

(** The entries of the keys of [keys] that are filed under [y], after
    those [old] holds. *)
Definition filed (byMonth : Obj.t number) (y : string) (keys : list string)
    (old : option (list MonthlyReturn.t)) : option (list MonthlyReturn.t) :=
  match filter (fun k => String.eqb (yearOf k) y) keys with
  | [] => old
  | ks => Some (match old with Some l => l | None => [] end ++ map (entryOf byMonth) ks)
  end.

(** The local year and month (1..12) of a time value. *)
Definition localYear (LocalTZA : Z -> Z) (t : Z) : Z :=
  YearFromTime (LocalTime LocalTZA t).

Definition localMonth (LocalTZA : Z -> Z) (t : Z) : Z :=
  MonthFromTime (LocalTime LocalTZA t) + 1.

(** ** Inputs of the examples *)

Definition cell (z : Z) : value := VNumber (Num.ofZ z).

(** The scenario of the specification. *)
Definition scenario : list RawRecord :=
  [record (VString "2023-01-31") (cell 100);
   record (VString "2023-02-28") (cell 110);
   record (VString "2023-03-31") (cell 99)].

(** A sheet whose first nav is zero. *)
Definition zeroBase : list RawRecord :=
  [record (VString "2023-01-31") (cell 0);
   record (VString "2023-02-28") (cell 100)].

(** A sheet with the text [Infinity] in the nav column. *)
Definition infiniteNav : list RawRecord :=
  [record (VString "2023-01-31") (VString "Infinity")].

(** A sheet with an empty nav cell, which [sheet_to_json] fills with
    [null]. *)
Definition emptyNavCell : list RawRecord :=
  [record (VString "2023-01-31") VNull].

(** Two months with the same nav. *)
Definition tie : list RawRecord :=
  [record (VString "2023-01-31") (cell 100);
   record (VString "2023-02-28") (cell 100)].

(** Two records of one month. *)
Definition sameMonth : list RawRecord :=
  [record (VString "2023-05-01") (cell 100);
   record (VString "2023-05-31") (cell 105)].

(** November and January, without December. *)
Definition gap : list RawRecord :=
  [record (VString "2023-11-30") (cell 100);
   record (VString "2024-01-31") (cell 110)].

(** Two consecutive months of the year -1199, the dates given as time
    values: 15 February and 17 March. *)
Definition beforeCommonEra : list RawRecord :=
  [record (cell (-100000000000000)) (cell 100);
   record (cell (-99997408000000)) (cell 110)].

(** What the normalizer returns on [scenario] and on [tie]. *)
Definition scenarioRows : list Row :=
  [{| date := Some 1675123200000; nav := Num.ofZ 100 |};
   {| date := Some 1677542400000; nav := Num.ofZ 110 |};
   {| date := Some 1680220800000; nav := Num.ofZ 99 |}].

Definition tieRows : list Row :=
  [{| date := Some 1675123200000; nav := Num.ofZ 100 |};
   {| date := Some 1677542400000; nav := Num.ofZ 100 |}].

(** The series of [tieRows]. *)
Definition tieFirst : EquityPoint.t :=
  {| EquityPoint.date := "2023-01-31"; EquityPoint.value := hundred |}.

Definition tieSecond : EquityPoint.t :=
  {| EquityPoint.date := "2023-02-28"; EquityPoint.value := hundred |}.

Definition tieSeries : Series :=
  {| equity := [tieFirst; tieSecond];
     drawdown := drawdownFrom NInf [tieFirst; tieSecond];
     monthReturnsByYear := monthReturnsOf Runtime.LocalTZA tieRows |}.

(** A number is [signed s] when it is a zero, an infinity or a finite
    number of sign [s]; NaN is not. *)
Definition signed (s : bool) (x : number) : Prop :=
  match x with
  | S754_zero s' | S754_infinity s' | S754_finite s' _ _ => s' = s
  | S754_nan => False
  end.

(** The representation is the canonical one of a binary64 value. *)
Definition valid (x : number) : Prop := valid_binary prec emax x = true.

(** A zero, a negative number or [-Infinity]. *)
Definition nonpos (x : number) : bool :=
  match x with
  | S754_zero _ => true
  | S754_infinity s | S754_finite s _ _ => s
  | S754_nan => false
  end.

(** Finite and not a zero. *)
Definition finiteNonzero (x : number) : bool :=
  match x with
  | S754_finite _ _ _ => true
  | _ => false
  end.

(** The base nav is finite and not zero, and every equity value is finite. *)
Definition finiteEquity (rows : list Row) : Prop :=
  match rows with
  | [] => True
  | r0 :: _ =>
      finiteNonzero (nav r0) = true
      /\ Forall (fun r => isFinite (equityValue (nav r0) r) = true) rows
  end.

(** The result of [computeSeries] on an empty array. *)
Definition emptySeries : Series :=
  {| equity := []; drawdown := []; monthReturnsByYear := [] |}.

(** The last row of [rows] whose month key is [k]. *)
Definition lastInMonth (LocalTZA : Z -> Z) (k : string) (rows : list Row) : option Row :=
  find (fun r => String.eqb (monthKey LocalTZA r) k) (rev rows).

(** ** Orders and special values *)

(** [a] is earlier than [b]; both dates are valid. *)
Definition dateLt (a b : Row) : Prop :=
  match date a, date b with
  | Some ta, Some tb => ta < tb
  | _, _ => False
  end.

(** A zero; an infinity. *)
Definition isZero (x : number) : bool :=
  match x with S754_zero _ => true | _ => false end.

Definition isInfinite (x : number) : bool :=
  match x with S754_infinity _ => true | _ => false end.

(** [0 / 0] and [Infinity / Infinity], the two quotients of numbers that
    are NaN. *)
Definition undefinedQuotient (x y : number) : bool :=
  (isZero x && isZero y) || (isInfinite x && isInfinite y).

(** The rank of a number other than NaN in the order of [SFcompare]. *)
Definition rank (x : number) : Z * Z * Z :=
  match x with
  | S754_infinity true => (-2, 0, 0)
  | S754_finite true m e => (-1, - e, - Zpos m)
  | S754_zero _ => (0, 0, 0)
  | S754_finite false m e => (1, e, Zpos m)
  | S754_infinity false => (2, 0, 0)
  | S754_nan => (3, 0, 0)
  end.

Definition rankLe (a b : Z * Z * Z) : Prop :=
  let '(a1, a2, a3) := a in
  let '(b1, b2, b3) := b in
  a1 < b1 \/ (a1 = b1 /\ (a2 < b2 \/ (a2 = b2 /\ a3 <= b3))).

(** A record as the specification takes it to be valid: the date is a
    real calendar date and the nav a finite number.  The filter of the
    program is [keep], which asks less of the nav. *)
Definition validRecord (r : Row) : bool :=
  negb (isNaNDate (date r)) && isFinite (nav r).

(** ** Further inputs *)

(** Two records of one calendar day, 31 January 2023, the dates given as
    time values: noon first, midnight second. *)
Definition sameDay : list RawRecord :=
  [record (cell 1675166400000) (cell 100);
   record (cell 1675123200000) (cell 110)].

Definition sameDayNoon : Row :=
  {| date := Some 1675166400000; nav := Num.ofZ 100 |}.

Definition sameDayMidnight : Row :=
  {| date := Some 1675123200000; nav := Num.ofZ 110 |}.

(** What the normalizer returns on [gap] and on [zeroBase]. *)
Definition gapRows : list Row :=
  [{| date := Some 1701302400000; nav := Num.ofZ 100 |};
   {| date := Some 1706659200000; nav := Num.ofZ 110 |}].

Definition zeroBaseRows : list Row :=
  [{| date := Some 1675123200000; nav := PZero |};
   {| date := Some 1677542400000; nav := Num.ofZ 100 |}].

(** The scenario with its first two records exchanged. *)
Definition scenarioSwapped : list RawRecord :=
  [record (VString "2023-02-28") (cell 110);
   record (VString "2023-01-31") (cell 100);
   record (VString "2023-03-31") (cell 99)].

(** The first instants of 1 and 2 January of the year 10000. *)
Definition newYear10000 : Z := 253402300800000.
Definition secondDay10000 : Z := 253402387200000.

(** ** Tactics *)

(** Reads the first character of the string under [Str.digitsValue], a
    digit, with the equation [step] of that function. *)
Ltac digit_step step :=
  match goal with
  | |- context [Str.digitsValue ?a (String ?c ?s)] =>
      let k := eval vm_compute in (Str.digitOf c) in
      match k with
      | Some ?v => rewrite (step a v c s eq_refl)
      end
  end.

(** The twelve cases of a month [m], from [H : 1 <= m <= 12]. *)
Ltac each_month m H :=
  let C := fresh "C" in
  assert (C : m = 1 \/ m = 2 \/ m = 3 \/ m = 4 \/ m = 5 \/ m = 6
              \/ m = 7 \/ m = 8 \/ m = 9 \/ m = 10 \/ m = 11 \/ m = 12) by lia;
  destruct C as [->|[->|[->|[->|[->|[->|[->|[->|[->|[->|[->| ->]]]]]]]]]]].

(* ================================================================== *)
(** * Properties of [sort] *)
(* ================================================================== *)

Section SortFacts.

Context {A : Type}.
Variable after : A -> A -> bool.

Lemma insert_perm (x : A) (l : list A) : Permutation (x :: l) (insert after x l).
Proof.
  induction l as [|y l IH]; simpl.
  - apply Permutation_refl.
  - destruct (after x y).
    + eapply perm_trans; [apply perm_swap|]. now apply perm_skip.
    + apply Permutation_refl.
Qed.

Lemma sort_perm (l : list A) : Permutation l (sort after l).
Proof.
  induction l as [|x l IH]; simpl.
  - apply perm_nil.
  - eapply perm_trans; [apply perm_skip, IH | apply insert_perm].
Qed.

Lemma sort_In (l : list A) (x : A) : In x (sort after l) <-> In x l.
Proof.
  split; apply Permutation_in;
    [apply Permutation_sym, sort_perm | apply sort_perm].
Qed.

(** Elements that [x] neither follows nor precedes keep their places
    around it: the sub-list selected by a predicate that [after] respects
    is unchanged by an insertion. *)
Lemma insert_filter (sel : A -> bool) (x : A) (l : list A) :
  (forall y, In y l -> sel x = true -> sel y = true -> after x y = false) ->
  filter sel (insert after x l) = filter sel (x :: l).
Proof.
  induction l as [|y l IH]; intros H; simpl.
  - reflexivity.
  - destruct (after x y) eqn:E; simpl.
    + rewrite IH by (intros z Hz; apply H; now right).
      simpl.
      destruct (sel x) eqn:Ex, (sel y) eqn:Ey; try reflexivity.
      rewrite (H y (or_introl eq_refl) eq_refl Ey) in E. discriminate.
    + reflexivity.
Qed.

Lemma sort_filter (sel : A -> bool) (l : list A) :
  (forall x y, sel x = true -> sel y = true -> after x y = false) ->
  filter sel (sort after l) = filter sel l.
Proof.
  intros H. induction l as [|x l IH]; simpl.
  - reflexivity.
  - rewrite insert_filter by (intros; now apply H).
    simpl. now rewrite IH.
Qed.

(** With [le] the order of which [after] is the strict converse on the
    elements at hand, insertion keeps a list sorted. *)
Variable le : A -> A -> Prop.
Variable ok : A -> Prop.
Hypothesis after_false : forall x y, ok x -> ok y -> after x y = false -> le x y.
Hypothesis after_true : forall x y, ok x -> ok y -> after x y = true -> le y x.
Hypothesis le_trans : forall x y z, le x y -> le y z -> le x z.

Lemma insert_sorted (x : A) (l : list A) :
  ok x -> Forall ok l ->
  StronglySorted le l -> StronglySorted le (insert after x l).
Proof.
  intros Hx Hl Hs. induction Hs as [|y l Hs IH Hy]; simpl.
  - constructor; [constructor | constructor].
  - inversion Hl as [|? ? Hoy Hol]; subst.
    destruct (after x y) eqn:E.
    + constructor; [now apply IH|].
      apply (Permutation_Forall (insert_perm x l)).
      constructor; [now apply after_true | exact Hy].
    + constructor; [now constructor|].
      assert (Hxy : le x y) by now apply after_false.
      constructor; [exact Hxy|].
      eapply Forall_impl; [|exact Hy]. intros z Hz. now apply le_trans with y.
Qed.

Lemma sort_sorted (l : list A) :
  Forall ok l -> StronglySorted le (sort after l).
Proof.
  induction l as [|x l IH]; intros Hl; simpl.
  - constructor.
  - inversion Hl; subst. apply insert_sorted; auto.
    apply (Permutation_Forall (sort_perm l)). assumption.
Qed.

End SortFacts.

(* ================================================================== *)
(** * Properties of [Obj] *)
(* ================================================================== *)

Section ObjFacts.

Context {V : Type}.

Lemma get_set_same (o : Obj.t V) (k : string) (v : V) :
  Obj.get (Obj.set o k v) k = Some v.
Proof.
  induction o as [|[k' v'] o IH]; simpl.
  - now rewrite String.eqb_refl.
  - destruct (String.eqb k' k) eqn:E; simpl; rewrite E; auto.
Qed.

Lemma get_set_other (o : Obj.t V) (k k' : string) (v : V) :
  k <> k' -> Obj.get (Obj.set o k v) k' = Obj.get o k'.
Proof.
  intros Hne. induction o as [|[k0 v0] o IH]; simpl.
  - destruct (String.eqb_spec k k'); [contradiction | reflexivity].
  - destruct (String.eqb_spec k0 k) as [->|]; simpl.
    + destruct (String.eqb_spec k k'); [contradiction | reflexivity].
    + now rewrite IH.
Qed.

End ObjFacts.

(* ================================================================== *)
(** * Properties of numbers *)
(* ================================================================== *)

(** ** Rounding

    What [binary_round_aux] returns has the sign it is given and, when the
    mantissa comes with an exponent not above the one [fexp] asks for, is
    the canonical representation of a binary64 value. *)

Local Abbreviation fexp := (SpecFloat.fexp prec emax).

Lemma fexp_eq (e : Z) : fexp e = Z.max (e - 53) (-1074).
Proof. reflexivity. Qed.

Lemma digits2_pos_size (p : positive) : digits2_pos p = Pos.size p.
Proof. induction p; simpl; congruence. Qed.

Lemma Zdigits2_log2 (m : Z) : 0 < m -> Zdigits2 m = Z.log2 m + 1.
Proof.
  destruct m as [|p|p]; try lia. intros _. simpl.
  rewrite digits2_pos_size. destruct p; simpl; lia.
Qed.

Lemma Zdigits2_nonneg (m : Z) : 0 <= Zdigits2 m.
Proof. destruct m; simpl; lia. Qed.

Lemma Zdigits2_mono (a b : Z) : 0 <= a <= b -> Zdigits2 a <= Zdigits2 b.
Proof.
  intros [Ha Hab].
  destruct (Z.eq_dec a 0) as [->|Hne].
  - apply Zdigits2_nonneg.
  - rewrite !Zdigits2_log2 by lia.
    pose proof (Z.log2_le_mono a b Hab). lia.
Qed.

Lemma Zdigits2_shiftr (m n : Z) :
  0 <= m -> 0 <= n -> Zdigits2 (Z.shiftr m n) = Z.max 0 (Zdigits2 m - n).
Proof.
  intros Hm Hn.
  destruct (Z.eq_dec m 0) as [->|Hne].
  - rewrite Z.shiftr_0_l. simpl. lia.
  - assert (Hpos : 0 < m) by lia.
    rewrite (Zdigits2_log2 m Hpos).
    destruct (Z.eq_dec (Z.shiftr m n) 0) as [E|E].
    + rewrite E. simpl.
      apply Z.shiftr_eq_0_iff in E. lia.
    + assert (0 <= Z.shiftr m n) by (apply Z.shiftr_nonneg; lia).
      rewrite Zdigits2_log2 by lia.
      rewrite Z.log2_shiftr by lia.
      assert (~ Z.log2 m < n).
      { intros Hlt. apply E. apply Z.shiftr_eq_0_iff. right. lia. }
      lia.
Qed.

Lemma shr_1_m (mrs : shr_record) :
  0 <= shr_m mrs -> shr_m (shr_1 mrs) = Z.div2 (shr_m mrs).
Proof.
  destruct mrs as [m r s]. simpl.
  destruct m as [|[p|p|]|p]; simpl; intros; try reflexivity; lia.
Qed.

Lemma iter_shr_m (p : positive) (mrs : shr_record) :
  0 <= shr_m mrs ->
  shr_m (iter_pos shr_1 p mrs) = Z.shiftr (shr_m mrs) (Zpos p).
Proof.
  revert mrs. induction p as [p IH|p IH|]; intros mrs H; simpl iter_pos.
  - assert (H1 : 0 <= shr_m (shr_1 mrs)).
    { rewrite shr_1_m by assumption. rewrite Z.div2_spec. apply Z.shiftr_nonneg. assumption. }
    assert (H2 : 0 <= shr_m (iter_pos shr_1 p (shr_1 mrs))).
    { rewrite IH by assumption. apply Z.shiftr_nonneg. assumption. }
    rewrite IH, IH, shr_1_m, Z.div2_spec by assumption.
    rewrite !Z.shiftr_shiftr by lia. f_equal. lia.
  - assert (H2 : 0 <= shr_m (iter_pos shr_1 p mrs)).
    { rewrite IH by assumption. apply Z.shiftr_nonneg. assumption. }
    rewrite IH, IH by assumption.
    rewrite !Z.shiftr_shiftr by lia. f_equal. lia.
  - rewrite shr_1_m, Z.div2_spec by assumption. reflexivity.
Qed.

Lemma shr_record_of_loc_m (m : Z) (l : location) :
  shr_m (shr_record_of_loc m l) = m.
Proof. destruct l as [|[]]; reflexivity. Qed.

(** The mantissa stays non-negative through a shift. *)
Lemma shr_fexp_nonneg (m e : Z) (l : location) :
  0 <= m -> 0 <= shr_m (fst (shr_fexp prec emax m e l)).
Proof.
  intros Hm. unfold shr_fexp, shr.
  destruct (fexp (Zdigits2 m + e) - e) as [|p|p]; simpl;
    rewrite ?iter_shr_m; rewrite ?shr_record_of_loc_m; try assumption.
  apply Z.shiftr_nonneg. assumption.
Qed.

(** A shift to the exponent [fexp] asks for leaves a canonical pair. *)
Lemma shr_fexp_canonical (m e : Z) (l : location) :
  0 <= m -> e <= fexp (Zdigits2 m + e) ->
  snd (shr_fexp prec emax m e l)
  = fexp (Zdigits2 (shr_m (fst (shr_fexp prec emax m e l)))
          + snd (shr_fexp prec emax m e l)).
Proof.
  intros Hm He. unfold shr_fexp, shr.
  destruct (fexp (Zdigits2 m + e) - e) as [|p|p] eqn:E; simpl.
  - rewrite shr_record_of_loc_m. lia.
  - rewrite iter_shr_m by (rewrite shr_record_of_loc_m; assumption).
    rewrite shr_record_of_loc_m.
    rewrite Zdigits2_shiftr by lia.
    pose proof (Zdigits2_nonneg m).
    rewrite fexp_eq in *. lia.
  - lia.
Qed.

Lemma round_nearest_even_bounds (m : Z) (l : location) :
  m <= round_nearest_even m l <= m + 1.
Proof.
  destruct l as [|[]]; simpl; try lia. destruct (Z.even m); lia.
Qed.

Lemma binary_round_aux_signed (s : bool) (m e : Z) (l : location) :
  0 <= m -> signed s (binary_round_aux prec emax s m e l).
Proof.
  intros Hm. unfold binary_round_aux.
  pose proof (shr_fexp_nonneg m e l Hm) as H1.
  destruct (shr_fexp prec emax m e l) as [mrs' e']. simpl in H1.
  pose proof (round_nearest_even_bounds (shr_m mrs') (loc_of_shr_record mrs')) as Hr.
  set (m1 := round_nearest_even (shr_m mrs') (loc_of_shr_record mrs')) in *.
  assert (Hm1 : 0 <= m1) by lia.
  pose proof (shr_fexp_nonneg m1 e' loc_Exact Hm1) as H2.
  destruct (shr_fexp prec emax m1 e' loc_Exact) as [mrs'' e'']. simpl in H2.
  destruct (shr_m mrs'') as [|q|q]; simpl; try reflexivity; try lia.
  destruct (_ <=? _); simpl; reflexivity.
Qed.

Lemma binary_round_aux_valid (s : bool) (m e : Z) (l : location) :
  0 <= m -> e <= fexp (Zdigits2 m + e) ->
  valid (binary_round_aux prec emax s m e l).
Proof.
  intros Hm He. unfold binary_round_aux.
  pose proof (shr_fexp_nonneg m e l Hm) as H1.
  pose proof (shr_fexp_canonical m e l Hm He) as C1.
  destruct (shr_fexp prec emax m e l) as [mrs' e']. simpl in H1, C1.
  pose proof (round_nearest_even_bounds (shr_m mrs') (loc_of_shr_record mrs')) as Hr.
  set (m1 := round_nearest_even (shr_m mrs') (loc_of_shr_record mrs')) in *.
  assert (Hm1 : 0 <= m1) by lia.
  assert (He1 : e' <= fexp (Zdigits2 m1 + e')).
  { pose proof (Zdigits2_mono (shr_m mrs') m1). rewrite fexp_eq in *. lia. }
  pose proof (shr_fexp_nonneg m1 e' loc_Exact Hm1) as H2.
  pose proof (shr_fexp_canonical m1 e' loc_Exact Hm1 He1) as C2.
  destruct (shr_fexp prec emax m1 e' loc_Exact) as [mrs'' e'']. simpl in H2, C2.
  destruct (shr_m mrs'') as [|q|q]; try reflexivity.
  destruct (e'' <=? emax - prec) eqn:E; try reflexivity.
  unfold valid. simpl. unfold bounded, canonical_mantissa.
  rewrite E, andb_true_r. apply Z.eqb_eq. simpl in C2. symmetry. exact C2.
Qed.


(** ** The operations of the program *)

Lemma signed_true_nonpos (x : number) : signed true x -> nonpos x = true.
Proof. destruct x; simpl; auto. Qed.

Lemma leb_nonpos (x : number) : leb x PZero = nonpos x.
Proof. destruct x as [[]|[]| |[] m e]; reflexivity. Qed.

Lemma div_eucl_div_mod (a b : Z) : Z.div_eucl a b = (a / b, a mod b).
Proof. unfold Z.div, Z.modulo. now destruct (Z.div_eucl a b). Qed.

Lemma shifted_mantissa (m s : Z) :
  0 <= s ->
  match s with Z.pos _ => Z.shiftl m s | 0 => m | Z.neg _ => 0 end = m * 2 ^ s.
Proof.
  intros Hs. destruct s as [|p|p]; try lia.
  apply Z.shiftl_mul_pow2. lia.
Qed.

(** The quotient [SFdiv_core_binary] hands to the rounding has enough
    digits for the exponent it comes with. *)
Lemma div_core_ready (m1 m2 : positive) (e1 e2 : Z) :
  let '(q, e', _) := SFdiv_core_binary prec emax (Zpos m1) e1 (Zpos m2) e2 in
  0 <= q /\ e' <= fexp (Zdigits2 q + e').
Proof.
  unfold SFdiv_core_binary.
  set (d1 := Zdigits2 (Zpos m1)). set (d2 := Zdigits2 (Zpos m2)).
  set (e' := Z.min (fexp (d1 + e1 - (d2 + e2))) (e1 - e2)).
  set (s := e1 - e2 - e').
  assert (Hs : 0 <= s) by (unfold s, e'; lia).
  set (m' := match s with Z.pos _ => Z.shiftl (Zpos m1) s | 0 => Zpos m1 | Z.neg _ => 0 end).
  assert (Hm' : m' = Zpos m1 * 2 ^ s) by (apply shifted_mantissa; exact Hs).
  rewrite div_eucl_div_mod.
  set (q := m' / Zpos m2).
  assert (Hq : 0 <= q).
  { apply Z.div_pos; [rewrite Hm'|]; lia. }
  split; [exact Hq|].
  assert (Hd : d1 + s - d2 <= Zdigits2 q).
  { pose proof (Zdigits2_nonneg q).
    unfold d1, d2. rewrite !Zdigits2_log2 by lia.
    set (L1 := Z.log2 (Zpos m1)). set (L2 := Z.log2 (Zpos m2)).
    destruct (Z_lt_le_dec (L1 + s - L2 - 1) 0) as [Hk|Hk]; [lia|].
    assert (Hq2 : 2 ^ (L1 + s - L2 - 1) <= q).
    { unfold q. apply Z.div_le_lower_bound; [lia|].
      rewrite Hm'.
      assert (B1 : 2 ^ L1 <= Zpos m1) by (apply Z.log2_spec; lia).
      assert (B2 : Zpos m2 < 2 ^ (L2 + 1)).
      { replace (L2 + 1) with (Z.succ L2) by lia. apply Z.log2_spec. lia. }
      assert (L1nn : 0 <= L1) by apply Z.log2_nonneg.
      assert (L2nn : 0 <= L2) by apply Z.log2_nonneg.
      assert (E : 2 ^ (L1 + s) = 2 ^ (L1 + s - L2 - 1) * 2 ^ (L2 + 1)).
      { rewrite <- Z.pow_add_r by lia. f_equal. lia. }
      assert (E2 : 2 ^ (L1 + s) = 2 ^ L1 * 2 ^ s) by (apply Z.pow_add_r; lia).
      assert (P1 : 0 < 2 ^ (L1 + s - L2 - 1)) by (apply Z.pow_pos_nonneg; lia).
      assert (P2 : 0 < 2 ^ s) by (apply Z.pow_pos_nonneg; lia).
      nia. }
    assert (0 < q).
    { assert (0 < 2 ^ (L1 + s - L2 - 1)) by (apply Z.pow_pos_nonneg; lia). lia. }
    rewrite Zdigits2_log2 by lia.
    apply Z.log2_le_pow2 in Hq2; lia. }
  fold fexp. rewrite fexp_eq in *. 
  assert (e' <= Z.max (d1 + e1 - (d2 + e2) - 53) (-1074)) by (unfold e'; rewrite fexp_eq; lia).
  unfold s in Hd. lia.
Qed.

Lemma ofRatio_valid (s : bool) (n d : positive) : valid (ofRatio s n d).
Proof.
  unfold ofRatio.
  pose proof (div_core_ready n d 0 0) as H.
  destruct (SFdiv_core_binary prec emax (Zpos n) 0 (Zpos d) 0) as [[q e'] l].
  apply binary_round_aux_valid; tauto.
Qed.

Lemma ofRatio_signed (s : bool) (n d : positive) : signed s (ofRatio s n d).
Proof.
  unfold ofRatio.
  pose proof (div_core_ready n d 0 0) as H.
  destruct (SFdiv_core_binary prec emax (Zpos n) 0 (Zpos d) 0) as [[q e'] l].
  apply binary_round_aux_signed; tauto.
Qed.

Lemma mul_hundred_valid (x : number) : valid (mul x hundred).
Proof.
  destruct x as [s|s| |s m e]; try reflexivity.
  unfold mul, hundred, SFmul.
  apply binary_round_aux_valid; [lia|].
  rewrite Zdigits2_log2 by lia.
  pose proof (Z.log2_mul_below (Zpos m) 7036874417766400 ltac:(lia) ltac:(lia)) as H.
  change (Z.log2 7036874417766400) with 52 in H.
  pose proof (Z.log2_nonneg (Zpos m)).
  rewrite fexp_eq. rewrite Pos2Z.inj_mul. lia.
Qed.

Lemma toFixed2_valid (x : number) : valid x -> valid (toFixed2 x).
Proof.
  intros Hx. destruct x as [s|s| |s m e]; try reflexivity.
  unfold toFixed2. destruct (ge_1e21 m e); [exact Hx|].
  destruct (scaled100 m e); try reflexivity. apply ofRatio_valid.
Qed.

Lemma toFixed2_nonpos (x : number) : nonpos x = true -> nonpos (toFixed2 x) = true.
Proof.
  destruct x as [s|s| |s m e]; simpl; intros H; auto.
  subst s. destruct (ge_1e21 m e); [reflexivity|].
  destruct (scaled100 m e); try reflexivity.
  apply signed_true_nonpos, ofRatio_signed.
Qed.

Lemma mul_hundred_nonpos (x : number) : nonpos x = true -> nonpos (mul x hundred) = true.
Proof.
  destruct x as [s|s| |s m e]; simpl; intros H; auto.
  - subst s. reflexivity.
  - subst s. apply signed_true_nonpos.
    change (xorb true false) with true.
    apply binary_round_aux_signed. lia.
Qed.

Lemma div_signed (sx sy : bool) (mx my : positive) (ex ey : Z) :
  signed (xorb sx sy) (div (S754_finite sx mx ex) (S754_finite sy my ey)).
Proof.
  unfold div, SFdiv.
  pose proof (div_core_ready mx my ex ey) as H.
  destruct (SFdiv_core_binary prec emax (Zpos mx) ex (Zpos my) ey) as [[q e'] l].
  apply binary_round_aux_signed. tauto.
Qed.

Lemma div_nonpos (x : number) (m : positive) (e : Z) :
  nonpos x = true -> nonpos (div x (S754_finite false m e)) = true.
Proof.
  destruct x as [s|s| |s mx ex]; simpl; intros H; auto.
  - subst s. reflexivity.
  - subst s. apply signed_true_nonpos. apply (div_signed true false).
Qed.

Lemma iter_xO_value (m d : positive) : Zpos (Pos.iter xO m d) = Zpos m * 2 ^ Zpos d.
Proof.
  induction d as [|d IH] using Pos.peano_ind.
  - simpl. lia.
  - rewrite Pos.iter_succ, Pos2Z.inj_succ, Z.pow_succ_r by lia.
    rewrite Pos2Z.inj_xO, IH. lia.
Qed.

Lemma shl_align_value (m : positive) (e ez : Z) :
  ez <= e -> Zpos (fst (shl_align m e ez)) = Zpos m * 2 ^ (e - ez).
Proof.
  intros H. unfold shl_align.
  destruct (ez - e) as [|d|d] eqn:E; cbn [fst]; try lia.
  - replace (e - ez) with 0 by lia. lia.
  - rewrite iter_xO_value. f_equal. f_equal. lia.
Qed.

Lemma bounded_digits (m : positive) (e : Z) :
  bounded prec emax m e = true ->
  -1074 <= e /\ Zpos m < 2 ^ 53 /\ (-1074 < e -> 2 ^ 52 <= Zpos m).
Proof.
  unfold bounded, canonical_mantissa. intros H.
  apply andb_true_iff in H. destruct H as [H _]. apply Z.eqb_eq in H.
  change (Zpos (digits2_pos m)) with (Zdigits2 (Zpos m)) in H.
  rewrite Zdigits2_log2 in H by lia. rewrite fexp_eq in H.
  repeat split.
  - lia.
  - apply Z.log2_lt_pow2; lia.
  - intros He. apply Z.log2_le_pow2; lia.
Qed.

Lemma binary_round_signed (s : bool) (m : positive) (e : Z) :
  signed s (binary_round prec emax s m e).
Proof.
  unfold binary_round.
  destruct (shl_align m e _) as [mz ez].
  apply binary_round_aux_signed. lia.
Qed.

(** A positive number [p] and a number [v] that is not above it: [v - p]
    is negative or a zero. *)
Lemma sub_nonpos (v : number) (mp : positive) (ep : Z) :
  valid v -> valid (S754_finite false mp ep) ->
  isNaN v = false ->
  gtb v (S754_finite false mp ep) = false ->
  nonpos (sub v (S754_finite false mp ep)) = true.
Proof.
  intros Hv Hp Hn Hgt.
  destruct v as [s|s| |s mv ev]; try discriminate.
  - reflexivity.
  - destruct s; [reflexivity | discriminate].
  - unfold sub, SFsub.
    destruct s.
    + simpl Z.sub. apply signed_true_nonpos. apply binary_round_signed.
    + simpl cond_Zopp.
      assert (Hle : Zpos (fst (shl_align mv ev (Z.min ev ep)))
                    - Zpos (fst (shl_align mp ep (Z.min ev ep))) <= 0).
      { rewrite !shl_align_value by lia.
        apply bounded_digits in Hv, Hp.
        unfold gtb, SFltb, SFcompare in Hgt.
        destruct (Z.compare_spec ep ev) as [E|E|E]; try discriminate.
        - subst ev. rewrite Z.min_id, Z.sub_diag, Z.pow_0_r.
          rewrite Pos.compare_cont_spec in Hgt. simpl in Hgt.
          destruct (Pos.compare_spec mp mv); try discriminate; lia.
        - rewrite Z.min_l by lia. rewrite Z.sub_diag, Z.pow_0_r.
          assert (2 ^ 1 <= 2 ^ (ep - ev)) by (apply Z.pow_le_mono_r; lia).
          change (2 ^ 1) with 2 in *. nia. }
      destruct (Zpos (fst (shl_align mv ev (Z.min ev ep)))
                - Zpos (fst (shl_align mp ep (Z.min ev ep)))) as [|q|q] eqn:E.
      * reflexivity.
      * lia.
      * apply signed_true_nonpos. apply binary_round_signed.
Qed.

Lemma sub_self_finite (s : bool) (m : positive) (e : Z) :
  sub (S754_finite s m e) (S754_finite s m e) = PZero.
Proof.
  unfold sub, SFsub. rewrite Z.sub_diag. reflexivity.
Qed.

(** A finite number other than zero is at no distance from itself. *)
Lemma drawdown_at_peak (s : bool) (m : positive) (e : Z) :
  let v := S754_finite s m e in
  toFixed2 (mul (div (sub v v) v) hundred) = PZero.
Proof.
  intros v. unfold v. rewrite sub_self_finite. reflexivity.
Qed.

Lemma div_self (s : bool) (m : positive) (e : Z) :
  div (S754_finite s m e) (S754_finite s m e) = one.
Proof.
  unfold div, SFdiv, SFdiv_core_binary.
  replace (Zdigits2 (Zpos m) + e - (Zdigits2 (Zpos m) + e)) with 0 by lia.
  replace (e - e) with 0 by lia.
  change (Z.min (fexp 0) 0) with (-53).
  change (0 - -53) with 53.
  cbv iota beta.
  rewrite div_eucl_div_mod.
  rewrite Z.shiftl_mul_pow2 by lia.
  rewrite (Z.mul_comm (Zpos m)).
  rewrite Z.div_mul by lia.
  rewrite Z.mod_mul by lia.
  rewrite xorb_nilpotent.
  unfold new_location. 
  destruct (Z.even (Zpos m)); reflexivity.
Qed.

Lemma equityValue_base (s : bool) (m : positive) (e : Z) :
  toFixed2 (mul (div (S754_finite s m e) (S754_finite s m e)) hundred) = hundred.
Proof. rewrite div_self. reflexivity. Qed.

(* ================================================================== *)
(** * The input normalizer, [parseSheetData] *)
(* ================================================================== *)

Section Normalizer.

Variable StringToNumber : string -> number.
Variable DateParse : string -> number.

Local Abbreviation toRow := (toRow StringToNumber DateParse).
Local Abbreviation parseSheetData := (parseSheetData StringToNumber DateParse).
Local Abbreviation ToNumber := (ToNumber StringToNumber).
Local Abbreviation newDate := (newDate StringToNumber DateParse).

Lemma keep_spec (r : Row) :
  keep r = true <-> isNaNDate (date r) = false /\ isNaN (nav r) = false.
Proof.
  unfold keep. rewrite andb_true_iff, !negb_true_iff. tauto.
Qed.

(** The output is the kept rows, each as often as in the input. *)
Lemma parseSheetData_perm (raw : list RawRecord) :
  Permutation (parseSheetData raw) (filter keep (map toRow raw)).
Proof.
  destruct raw as [|r raw].
  - apply perm_nil.
  - apply Permutation_sym, sort_perm.
Qed.

Lemma parseSheetData_In (raw : list RawRecord) (row : Row) :
  In row (parseSheetData raw) <-> In row (map toRow raw) /\ keep row = true.
Proof.
  rewrite <- filter_In.
  split; apply Permutation_in;
    [apply parseSheetData_perm | apply Permutation_sym, parseSheetData_perm].
Qed.

Lemma parseSheetData_valid (raw : list RawRecord) :
  Forall validDate (parseSheetData raw).
Proof.
  apply Forall_forall. intros row H.
  apply parseSheetData_In in H. destruct H as [_ H].
  apply keep_spec in H. exact (proj1 H).
Qed.

Lemma dateAfter_false (x y : Row) :
  validDate x -> validDate y -> dateAfter x y = false -> dateLe x y.
Proof.
  unfold validDate, dateAfter, dateLe.
  destruct (date x), (date y); simpl; try discriminate.
  intros _ _ H. apply Z.ltb_ge in H. exact H.
Qed.

Lemma dateAfter_true (x y : Row) :
  validDate x -> validDate y -> dateAfter x y = true -> dateLe y x.
Proof.
  unfold validDate, dateAfter, dateLe.
  destruct (date x), (date y); simpl; try discriminate.
  intros _ _ H. apply Z.ltb_lt in H. lia.
Qed.

Lemma dateLe_trans (x y z : Row) : dateLe x y -> dateLe y z -> dateLe x z.
Proof.
  unfold dateLe. destruct (date x), (date y), (date z); try tauto. lia.
Qed.

Lemma onDate_not_after (d : Date) (x y : Row) :
  onDate d x = true -> onDate d y = true -> dateAfter x y = false.
Proof.
  unfold onDate, dateAfter.
  destruct d, (date x), (date y); try discriminate; try reflexivity.
  intros H1 H2. apply Z.eqb_eq in H1, H2. subst. apply Z.ltb_irrefl.
Qed.

(** C3 (as amended): a row is in the output exactly when it is built from
    a raw record whose ["Date"] gives a valid date and whose ["Nav"] is
    coerced to a number other than NaN; an infinite one is kept. *)
Theorem parseSheetData_keeps_iff (raw : list RawRecord) (row : Row) :
  In row (parseSheetData raw) <->
  exists r, In r raw /\ row = toRow r
            /\ isNaNDate (newDate (field r "Date")) = false
            /\ isNaN (ToNumber (field r "Nav")) = false.
Proof.
  rewrite parseSheetData_In, in_map_iff. split.
  - intros [[r [<- Hin]] Hk]. apply keep_spec in Hk.
    exists r. repeat split; tauto.
  - intros [r [Hin [-> [Hd Hn]]]]. split.
    + exists r. tauto.
    + apply keep_spec. split; assumption.
Qed.

(** C5 (as amended): the output is in non-decreasing order of time value,
    and the rows of one time value stand in the order the input has them;
    rows of one calendar day with different times of day are put in the
    order of their times. *)
Theorem parseSheetData_sorted_stable (raw : list RawRecord) :
  StronglySorted dateLe (parseSheetData raw)
  /\ forall d : Date,
       filter (onDate d) (parseSheetData raw)
       = filter (onDate d) (filter keep (map toRow raw)).
Proof.
  destruct raw as [|r raw].
  - split; [constructor | reflexivity].
  - change (parseSheetData (r :: raw))
      with (sort dateAfter (filter keep (map toRow (r :: raw)))). split.
    + apply sort_sorted with (ok := validDate).
      * exact dateAfter_false.
      * exact dateAfter_true.
      * exact dateLe_trans.
      * apply Forall_forall. intros x Hx. apply filter_In in Hx.
        destruct Hx as [_ Hx]. apply keep_spec in Hx. exact (proj1 Hx).
    + intros d. apply sort_filter. apply onDate_not_after.
Qed.

(** C8 (as amended): every row of the output has a valid date and a nav
    other than NaN; nothing makes the nav positive, or finite. *)
Theorem parseSheetData_nav_not_NaN (raw : list RawRecord) (row : Row) :
  In row (parseSheetData raw) ->
  isNaN (nav row) = false /\ isNaNDate (date row) = false.
Proof.
  intros H. apply parseSheetData_In in H. destruct H as [_ H].
  apply keep_spec in H. tauto.
Qed.

Lemma parseSheetData_all_invalid (raw : list RawRecord) :
  (forall r, In r raw -> keep (toRow r) = false) -> parseSheetData raw = [].
Proof.
  intros H.
  assert (P : Permutation (parseSheetData raw) []).
  { eapply perm_trans; [apply parseSheetData_perm|].
    replace (filter keep (map toRow raw)) with (@nil Row); [apply perm_nil|].
    symmetry. induction raw as [|r raw IH]; simpl; [reflexivity|].
    rewrite (H r (or_introl eq_refl)). apply IH.
    intros r' Hr'. apply H. now right. }
  apply Permutation_sym, Permutation_nil in P. exact P.
Qed.

End Normalizer.

(* ================================================================== *)
(** * The derivation engine, [computeSeries] *)
(* ================================================================== *)

Section Engine.

Variable LocalTZA : Z -> Z.

Local Abbreviation computeSeries := (computeSeries LocalTZA).
Local Abbreviation byMonthOf := (byMonthOf LocalTZA).
Local Abbreviation monthKey := (monthKey LocalTZA).
Local Abbreviation bucket := (bucket LocalTZA).

Lemma equityFrom_valid (base : number) (rows : list Row) :
  Forall validDate rows ->
  exists eq, equityFrom base rows = Some eq
             /\ map EquityPoint.value eq = map (equityValue base) rows.
Proof.
  induction 1 as [|r rows Hr _ IH]; simpl.
  - now exists [].
  - destruct IH as [eq [-> Heq]].
    unfold equityPoint, validDate in *.
    destruct (date r) as [t|]; [|discriminate]. simpl.
    eexists. split; [reflexivity|]. simpl. now rewrite Heq.
Qed.

(** On rows with valid dates [computeSeries] throws nothing. *)
Lemma computeSeries_valid (rows : list Row) :
  Forall validDate rows -> exists s, computeSeries rows = Some s.
Proof.
  intros H. destruct rows as [|r0 rows]; simpl.
  - now eexists.
  - destruct (equityFrom_valid (nav r0) _ H) as [eq [E _]].
    simpl in E. rewrite E. now eexists.
Qed.

Lemma byMonthOf_snoc (rows : list Row) (r : Row) :
  byMonthOf (rows ++ [r]) = bucket (byMonthOf rows) r.
Proof.
  change (byMonthOf (rows ++ [r])) with (fold_left bucket (rows ++ [r]) []).
  now rewrite fold_left_app.
Qed.

Lemma byMonthOf_get (rows : list Row) (k : string) :
  Obj.get (byMonthOf rows) k = option_map nav (lastInMonth LocalTZA k rows).
Proof.
  unfold lastInMonth.
  induction rows as [|r rows IH] using rev_ind.
  - reflexivity.
  - rewrite byMonthOf_snoc, rev_app_distr. simpl.
    change (bucket (byMonthOf rows) r)
      with (Obj.set (byMonthOf rows) (monthKey r) (nav r)).
    destruct (String.eqb_spec (monthKey r) k) as [<-|Hne].
    + apply get_set_same.
    + rewrite get_set_other by assumption. exact IH.
Qed.

(** C6: the value [byMonth] holds for a month key, the one the returns are
    computed from, is the nav of the last row of that month: a later row
    of the month overwrites an earlier one. *)
Theorem byMonth_last_wins (rows : list Row) (k : string) :
  Obj.get (byMonthOf rows) k = option_map nav (lastInMonth LocalTZA k rows)
  /\ forall before r after,
       rows = before ++ r :: after ->
       monthKey r = k ->
       Forall (fun r' => monthKey r' <> k) after ->
       Obj.get (byMonthOf rows) k = Some (nav r).
Proof.
  split; [apply byMonthOf_get|].
  intros before r after -> Hk Hafter.
  rewrite byMonthOf_get. unfold lastInMonth.
  rewrite rev_app_distr. simpl. rewrite <- app_assoc. simpl.
  apply Forall_rev in Hafter.
  induction Hafter as [|x l Hx _ IH]; simpl.
  - rewrite Hk, String.eqb_refl. reflexivity.
  - apply String.eqb_neq in Hx. rewrite Hx. exact IH.
Qed.

Lemma equityValue_valid (base : number) (r : Row) : valid (equityValue base r).
Proof. apply toFixed2_valid, mul_hundred_valid. Qed.

Lemma equityValue_first (r0 : Row) :
  finiteNonzero (nav r0) = true -> equityValue (nav r0) r0 = hundred.
Proof.
  unfold equityValue. destruct (nav r0); try discriminate.
  intros _. apply equityValue_base.
Qed.

Lemma computeSeries_eq (r0 : Row) (rows : list Row) :
  computeSeries (r0 :: rows)
  = match equityFrom (nav r0) (r0 :: rows) with
    | Some eq =>
        Some {| equity := eq;
                drawdown := drawdownFrom NInf eq;
                monthReturnsByYear := monthReturnsOf LocalTZA (r0 :: rows) |}
    | None => None
    end.
Proof. reflexivity. Qed.

(** [computeSeries] on rows with valid dates, written out. *)
Lemma computeSeries_cons (r0 : Row) (rows : list Row) :
  Forall validDate (r0 :: rows) ->
  exists eq,
    computeSeries (r0 :: rows)
    = Some {| equity := eq;
              drawdown := drawdownFrom NInf eq;
              monthReturnsByYear := monthReturnsOf LocalTZA (r0 :: rows) |}
    /\ map EquityPoint.value eq = map (equityValue (nav r0)) (r0 :: rows).
Proof.
  intros H. destruct (equityFrom_valid (nav r0) _ H) as [eq [E V]].
  exists eq. split; [|exact V].
  rewrite computeSeries_eq, E. reflexivity.
Qed.

Lemma gtb_positive (v : number) (mp : positive) (ep : Z) :
  isFinite v = true -> gtb v (S754_finite false mp ep) = true ->
  exists m e, v = S754_finite false m e.
Proof.
  destruct v as [s|s| |[] m e]; try discriminate.
  intros _ _. now exists m, e.
Qed.

Lemma drawdownFrom_cons (peak : number) (pt : EquityPoint.t) (eq : list EquityPoint.t) :
  drawdownFrom peak (pt :: eq)
  = let peak' := if gtb (EquityPoint.value pt) peak then EquityPoint.value pt else peak in
    {| DrawdownPoint.date := EquityPoint.date pt;
       DrawdownPoint.drawdown :=
         toFixed2 (mul (div (sub (EquityPoint.value pt) peak') peak') hundred) |}
    :: drawdownFrom peak' eq.
Proof. reflexivity. Qed.

(** Under a positive finite peak every drawdown is at most zero, while the
    values are finite. *)
Lemma drawdownFrom_nonpos (eq : list EquityPoint.t) :
  forall (mp : positive) (ep : Z),
  valid (S754_finite false mp ep) ->
  Forall (fun pt => valid (EquityPoint.value pt)
                    /\ isFinite (EquityPoint.value pt) = true) eq ->
  Forall (fun d => leb (DrawdownPoint.drawdown d) PZero = true)
         (drawdownFrom (S754_finite false mp ep) eq).
Proof.
  induction eq as [|pt eq IH]; intros mp ep Hp Hall.
  - constructor.
  - inversion Hall as [|? ? [Hv Hf] Hrest]; subst.
    rewrite drawdownFrom_cons. cbv zeta.
    destruct (gtb (EquityPoint.value pt) (S754_finite false mp ep)) eqn:G.
    + destruct (gtb_positive _ _ _ Hf G) as [m [e E]].
      rewrite E in *. constructor.
      * cbn [DrawdownPoint.drawdown]. rewrite drawdown_at_peak. reflexivity.
      * apply IH; assumption.
    + constructor.
      * cbn [DrawdownPoint.drawdown]. rewrite leb_nonpos.
        apply toFixed2_nonpos, mul_hundred_nonpos, div_nonpos, sub_nonpos; try assumption.
        destruct (EquityPoint.value pt); try discriminate; reflexivity.
      * apply IH; assumption.
Qed.

(** C2 (as amended): when the base nav is finite and not zero and every
    equity value is finite, every drawdown the program emits is at most
    zero. *)
Theorem drawdown_nonpositive (rows : list Row) :
  Forall validDate rows -> finiteEquity rows ->
  exists s, computeSeries rows = Some s
            /\ Forall (fun d => leb (DrawdownPoint.drawdown d) PZero = true)
                      (drawdown s).
Proof.
  intros Hd Hf. destruct rows as [|r0 rows].
  - exists emptySeries. split; [reflexivity | constructor].
  - destruct (computeSeries_cons r0 rows Hd) as [eq [E V]].
    eexists. split; [exact E|]. simpl.
    destruct Hf as [Hb Hfin].
    destruct eq as [|pt eq]; [constructor|].
    simpl in V. injection V as V0 V.
    rewrite (equityValue_first r0 Hb) in V0.
    cbn [drawdown]. rewrite drawdownFrom_cons, V0. cbv zeta.
    change (gtb hundred NInf) with true. cbv iota.
    constructor.
    + reflexivity.
    + apply drawdownFrom_nonpos; [reflexivity|].
      inversion Hfin as [|? ? _ Hfin']; subst.
      clear - V Hfin'. revert rows V Hfin'.
      induction eq as [|q eq IH]; intros rows V Hfin; [constructor|].
      destruct rows as [|r rows]; [discriminate|].
      simpl in V. injection V as Vq V.
      inversion Hfin; subst.
      constructor.
      * rewrite Vq. split; [apply equityValue_valid | assumption].
      * eapply IH; eassumption.
Qed.

(** C4 (as amended): when the first nav is finite and positive the first
    equity value is exactly 100. *)
Theorem first_equity_is_100 (r0 : Row) (rows : list Row) :
  Forall validDate (r0 :: rows) ->
  isFinite (nav r0) = true -> gtb (nav r0) PZero = true ->
  exists s pt pts,
    computeSeries (r0 :: rows) = Some s
    /\ equity s = pt :: pts
    /\ EquityPoint.value pt = hundred.
Proof.
  intros Hd Hf Hg.
  destruct (computeSeries_cons r0 rows Hd) as [eq [E V]].
  destruct eq as [|pt pts]; [discriminate|].
  simpl in V. injection V as V0 _.
  eexists. exists pt, pts. split; [exact E|]. split; [reflexivity|].
  rewrite V0. apply equityValue_first.
  destruct (nav r0) as [s|s| |s m e]; try discriminate; reflexivity.
Qed.

Lemma equityFrom_values (base : number) (rows : list Row) :
  forall eq, equityFrom base rows = Some eq ->
  map EquityPoint.value eq = map (equityValue base) rows.
Proof.
  induction rows as [|r rows IH]; simpl; intros eq H.
  - injection H as <-. reflexivity.
  - unfold equityPoint in H.
    destruct (toISODate (date r)); [|discriminate].
    destruct (equityFrom base rows) as [pts|]; [|discriminate].
    injection H as <-. simpl. now rewrite (IH pts eq_refl).
Qed.

Lemma peakAfter_cases (pre : list EquityPoint.t) :
  forall peak,
  peakAfter peak pre = peak
  \/ exists q, In q pre /\ peakAfter peak pre = EquityPoint.value q.
Proof.
  unfold peakAfter.
  induction pre as [|p pre IH]; intros peak; simpl.
  - now left.
  - destruct (IH (if gtb (EquityPoint.value p) peak then EquityPoint.value p else peak))
      as [E|[q [Hq E]]].
    + rewrite E. destruct (gtb (EquityPoint.value p) peak).
      * right. exists p. split; [now left | reflexivity].
      * now left.
    + right. exists q. split; [now right | exact E].
Qed.

Lemma drawdownFrom_app (pre l : list EquityPoint.t) :
  forall peak,
  drawdownFrom peak (pre ++ l)
  = drawdownFrom peak pre ++ drawdownFrom (peakAfter peak pre) l.
Proof.
  induction pre as [|p pre IH]; intros peak.
  - reflexivity.
  - rewrite <- app_comm_cons, !drawdownFrom_cons. cbv zeta.
    rewrite IH. reflexivity.
Qed.

Lemma drawdownFrom_length (eq : list EquityPoint.t) :
  forall peak, List.length (drawdownFrom peak eq) = List.length eq.
Proof.
  induction eq as [|p eq IH]; intros peak; simpl; [reflexivity|].
  now rewrite IH.
Qed.

(** A number that is at most a positive finite one and not below it is
    that very number. *)
Lemma leb_not_ltb (a : number) (m : positive) (e : Z) :
  leb a (S754_finite false m e) = true ->
  ltb a (S754_finite false m e) = false ->
  a = S754_finite false m e.
Proof.
  unfold leb, ltb, SFleb, SFltb.
  destruct a as [s|[]| |[] ma ea]; simpl; try discriminate.
  destruct (Z.compare_spec ea e) as [E|E|E]; try discriminate.
  rewrite Pos.compare_cont_spec. simpl.
  destruct (Pos.compare_spec ma m) as [E'|E'|E']; try discriminate.
  intros _ _. now subst.
Qed.

Lemma leb_hundred_positive (v : number) :
  isFinite v = true -> leb hundred v = true -> exists m e, v = S754_finite false m e.
Proof.
  destruct v as [s|s| |[] m e]; try discriminate.
  intros _ _. now exists m, e.
Qed.

(** C7 (as amended): with a finite base nav other than zero, the drawdown
    is exactly zero at every point whose finite equity value is at least
    every earlier one: at the first point, at a new peak, and at a point
    that equals the peak held. *)
Theorem drawdown_zero_at_running_max
    (rows : list Row) (s : Series)
    (pre : list EquityPoint.t) (pt : EquityPoint.t) (post : list EquityPoint.t) :
  computeSeries rows = Some s ->
  (forall r0, hd_error rows = Some r0 -> finiteNonzero (nav r0) = true) ->
  equity s = pre ++ pt :: post ->
  isFinite (EquityPoint.value pt) = true ->
  Forall (fun q => leb (EquityPoint.value q) (EquityPoint.value pt) = true) pre ->
  exists d, nth_error (drawdown s) (List.length pre) = Some d
            /\ DrawdownPoint.drawdown d = PZero.
Proof.
  intros Hs Hb Heq Hf Hpre.
  destruct rows as [|r0 rows].
  { injection Hs as <-. destruct pre; discriminate. }
  specialize (Hb r0 eq_refl).
  rewrite computeSeries_eq in Hs.
  destruct (equityFrom (nav r0) (r0 :: rows)) as [eq|] eqn:E; [|discriminate].
  injection Hs as <-. cbn [equity drawdown] in *. subst eq.
  apply equityFrom_values in E.
  assert (Hpos : exists m e, EquityPoint.value pt = S754_finite false m e).
  { destruct pre as [|p0 pre].
    - simpl in E. injection E as E0 _.
      rewrite E0, (equityValue_first r0 Hb). now eexists _, _.
    - simpl in E. injection E as E0 _.
      rewrite (equityValue_first r0 Hb) in E0.
      inversion Hpre as [|? ? H0 _]; subst. rewrite E0 in H0.
      now apply leb_hundred_positive. }
  destruct Hpos as [m [e Ev]].
  rewrite drawdownFrom_app, drawdownFrom_cons. cbv zeta.
  rewrite nth_error_app2 by (rewrite drawdownFrom_length; lia).
  rewrite drawdownFrom_length, Nat.sub_diag. cbn [nth_error].
  eexists. split; [reflexivity|]. cbn [DrawdownPoint.drawdown].
  assert (Hpk : (if gtb (EquityPoint.value pt) (peakAfter NInf pre)
                 then EquityPoint.value pt else peakAfter NInf pre)
                = EquityPoint.value pt).
  { destruct (gtb (EquityPoint.value pt) (peakAfter NInf pre)) eqn:G; [reflexivity|].
    destruct (peakAfter_cases pre NInf) as [P|[q [Hq P]]]; rewrite P in *.
    - rewrite Ev in G. discriminate.
    - rewrite Forall_forall in Hpre. specialize (Hpre q Hq).
      rewrite Ev in *. now apply leb_not_ltb. }
  rewrite Hpk, Ev. apply drawdown_at_peak.
Qed.

End Engine.

(* ================================================================== *)
(** * Month keys *)
(* ================================================================== *)

(** ** Printing and reading integers *)

Lemma split_digits (s : string) :
  allDigits s = true -> Str.split "-" s = [s].
Proof.
  induction s as [|a s IH]; simpl; [reflexivity|].
  destruct (Str.digitOf a) eqn:D; [|discriminate].
  intros H. rewrite (IH H).
  destruct (Ascii.eqb_spec a "-") as [->|_]; [discriminate | reflexivity].
Qed.

Lemma split_digits_hyphen (s t : string) :
  allDigits s = true ->
  Str.split "-" (s ++ String "-" t) = s :: Str.split "-" t.
Proof.
  induction s as [|a s IH]; simpl; [reflexivity|].
  destruct (Str.digitOf a) eqn:D; [|discriminate].
  intros H. rewrite (IH H).
  destruct (Ascii.eqb_spec a "-") as [->|_]; [discriminate | reflexivity].
Qed.

Lemma allDigits_uint (d : Decimal.uint) :
  allDigits (NilEmpty.string_of_uint d) = true.
Proof. induction d; simpl; assumption || reflexivity. Qed.

Lemma digitsValue_step (acc k : Z) (c : ascii) (s : string) :
  Str.digitOf c = Some k ->
  Str.digitsValue acc (String c s) = Str.digitsValue (10 * acc + k) s.
Proof. intros H. simpl. now rewrite H. Qed.

Lemma digitsValue_uint_acc (d : Decimal.uint) :
  forall acc : positive,
  Str.digitsValue (Zpos acc) (NilEmpty.string_of_uint d)
  = Some (Zpos (Pos.of_uint_acc d acc)).
Proof.
  induction d; intros acc;
    cbn [NilEmpty.string_of_uint Pos.of_uint_acc]; try reflexivity;
    digit_step digitsValue_step; rewrite <- IHd; f_equal; lia.
Qed.

Lemma digitsValue_uint (d : Decimal.uint) :
  Str.digitsValue 0 (NilEmpty.string_of_uint d) = Some (Z.of_N (Pos.of_uint d)).
Proof.
  induction d; cbn [NilEmpty.string_of_uint Pos.of_uint]; try reflexivity;
    digit_step digitsValue_step; try exact IHd; apply digitsValue_uint_acc.
Qed.

Lemma ofZ_pos (p : positive) :
  Str.ofZ (Zpos p) = NilEmpty.string_of_uint (Pos.to_uint p).
Proof.
  unfold Str.ofZ. simpl. unfold NilZero.string_of_uint.
  pose proof (Unsigned.to_uint_nonnil p).
  destruct (Pos.to_uint p); congruence.
Qed.

Lemma allDigits_ofZ (y : Z) : 0 <= y -> allDigits (Str.ofZ y) = true.
Proof.
  destruct y as [|p|p]; try lia; intros _.
  - reflexivity.
  - rewrite ofZ_pos. apply allDigits_uint.
Qed.

Lemma toInteger_ofZ (y : Z) : 0 <= y -> Str.toInteger (Str.ofZ y) = Some y.
Proof.
  destruct y as [|p|p]; try lia; intros _.
  - reflexivity.
  - rewrite ofZ_pos. unfold Str.toInteger.
    rewrite digitsValue_uint, Unsigned.of_to. reflexivity.
Qed.

Lemma split_monthKeyOf (y m : Z) :
  0 <= y -> 1 <= m <= 12 ->
  Str.split "-" (monthKeyOf y m) = [Str.ofZ y; Str.padStart2 (Str.ofZ m)].
Proof.
  intros Hy Hm. unfold monthKeyOf.
  change (Str.ofZ y ++ "-" ++ Str.padStart2 (Str.ofZ m))%string
    with (Str.ofZ y ++ String "-" (Str.padStart2 (Str.ofZ m)))%string.
  rewrite split_digits_hyphen by (apply allDigits_ofZ; exact Hy).
  f_equal. each_month m Hm; reflexivity.
Qed.

(** For a key of a year from 0 on, [prevKey] is the key of the calendar
    month before. *)
Lemma prevKey_monthKeyOf (y m : Z) :
  0 <= y -> 1 <= m <= 12 ->
  prevKey (Str.ofZ y) (Str.padStart2 (Str.ofZ m))
  = if m =? 1 then monthKeyOf (y - 1) 12 else monthKeyOf y (m - 1).
Proof.
  intros Hy Hm. unfold prevKey.
  each_month m Hm; try reflexivity.
  cbn [Str.toInteger Str.padStart2 Str.ofZ]. simpl Str.toInteger.
  rewrite toInteger_ofZ by exact Hy. reflexivity.
Qed.

(** ** The calendar *)

Lemma civil_month_range (day : Z) : 1 <= snd (fst (civil day)) <= 12.
Proof.
  unfold civil. cbv zeta. cbn [fst snd].
  set (z := day + 719468).
  pose proof (Z.mod_pos_bound z 146097 ltac:(lia)) as Hdoe.
  set (doe := z mod 146097) in *.
  set (yoe := (doe - doe / 1460 + doe / 36524 - doe / 146096) / 365).
  set (doy := doe - (365 * yoe + yoe / 4 - yoe / 100)).
  assert (Hdoy : 0 <= doy <= 365).
  { unfold doy, yoe.
    pose proof (Z.div_mod doe 1460 ltac:(lia)).
    pose proof (Z.mod_pos_bound doe 1460 ltac:(lia)).
    pose proof (Z.div_mod doe 36524 ltac:(lia)).
    pose proof (Z.mod_pos_bound doe 36524 ltac:(lia)).
    pose proof (Z.div_mod doe 146096 ltac:(lia)).
    pose proof (Z.mod_pos_bound doe 146096 ltac:(lia)).
    set (a := doe / 1460) in *. set (b := doe / 36524) in *. set (c := doe / 146096) in *.
    pose proof (Z.div_mod (doe - a + b - c) 365 ltac:(lia)).
    pose proof (Z.mod_pos_bound (doe - a + b - c) 365 ltac:(lia)).
    set (y := (doe - a + b - c) / 365) in *.
    pose proof (Z.div_mod y 4 ltac:(lia)).
    pose proof (Z.mod_pos_bound y 4 ltac:(lia)).
    pose proof (Z.div_mod y 100 ltac:(lia)).
    pose proof (Z.mod_pos_bound y 100 ltac:(lia)).
    lia. }
  pose proof (Z.div_mod (5 * doy + 2) 153 ltac:(lia)).
  pose proof (Z.mod_pos_bound (5 * doy + 2) 153 ltac:(lia)).
  set (mp := (5 * doy + 2) / 153) in *.
  destruct (mp <? 10) eqn:E; [apply Z.ltb_lt in E | apply Z.ltb_ge in E]; lia.
Qed.

(** ** The order of strings *)

Lemma ascii_compare_refl (a : ascii) : Ascii.compare a a = Eq.
Proof. unfold Ascii.compare. apply N.compare_refl. Qed.

Lemma compare_prefix (p a b : string) :
  String.compare (p ++ a) (p ++ b) = String.compare a b.
Proof.
  induction p as [|c p IH]; simpl; [reflexivity|].
  now rewrite ascii_compare_refl.
Qed.

Lemma string_leb_trans (a b c : string) :
  String.leb a b = true -> String.leb b c = true -> String.leb a c = true.
Proof.
  unfold String.leb. revert b c.
  induction a as [|x a IH]; intros [|y b] [|z c]; simpl; try congruence.
  unfold Ascii.compare.
  destruct (N.compare_spec (N_of_ascii x) (N_of_ascii y)) as [E1|E1|E1];
    destruct (N.compare_spec (N_of_ascii y) (N_of_ascii z)) as [E2|E2|E2];
    destruct (N.compare_spec (N_of_ascii x) (N_of_ascii z)) as [E3|E3|E3];
    try congruence; try lia.
  apply IH.
Qed.

Lemma string_leb_ltb (a b : string) :
  String.leb a b = true -> a <> b -> String.ltb a b = true.
Proof.
  unfold String.leb, String.ltb.
  destruct (String.compare a b) eqn:E; try congruence.
  apply String.compare_eq_iff in E. congruence.
Qed.

(** ** Sorted lists *)

Lemma StronglySorted_filter {A : Type} (R : A -> A -> Prop) (p : A -> bool) (l : list A) :
  StronglySorted R l -> StronglySorted R (filter p l).
Proof.
  induction 1 as [|a l Hs IH Ha]; simpl; [constructor|].
  destruct (p a); [|exact IH].
  constructor; [exact IH|].
  apply Forall_forall. intros x Hx. apply filter_In in Hx.
  rewrite Forall_forall in Ha. now apply Ha.
Qed.

Lemma StronglySorted_map {A B : Type} (R : A -> A -> Prop) (R' : B -> B -> Prop)
    (f : A -> B) (l : list A) :
  (forall a b, In a l -> In b l -> R a b -> R' (f a) (f b)) ->
  StronglySorted R l -> StronglySorted R' (map f l).
Proof.
  intros H Hs. induction Hs as [|a l Hs IH Ha]; simpl; [constructor|].
  constructor.
  - apply IH. intros x y Hx Hy. apply H; now right.
  - apply Forall_forall. intros y Hy. apply in_map_iff in Hy.
    destruct Hy as [x [<- Hx]]. rewrite Forall_forall in Ha.
    apply H; [now left | now right | now apply Ha].
Qed.

Lemma StronglySorted_strict {A : Type} (R S : A -> A -> Prop) (l : list A) :
  (forall a b, R a b -> a <> b -> S a b) ->
  NoDup l -> StronglySorted R l -> StronglySorted S l.
Proof.
  intros H Hn Hs. induction Hs as [|a l Hs IH Ha]; [constructor|].
  inversion Hn as [|? ? Hnot Hn']; subst.
  constructor; [now apply IH|].
  apply Forall_forall. intros x Hx. rewrite Forall_forall in Ha.
  apply H; [now apply Ha|]. intros ->. contradiction.
Qed.

(** ** The keys of an object *)

Lemma keys_set {V : Type} (o : Obj.t V) (k : string) (v : V) :
  Obj.keys (Obj.set o k v)
  = if existsb (String.eqb k) (Obj.keys o) then Obj.keys o else Obj.keys o ++ [k].
Proof.
  induction o as [|[k' v'] o IH]; simpl; [reflexivity|].
  rewrite (String.eqb_sym k k').
  destruct (String.eqb k' k); simpl; [reflexivity|].
  rewrite IH. now destruct (existsb (String.eqb k) (Obj.keys o)).
Qed.

Lemma keys_set_NoDup {V : Type} (o : Obj.t V) (k : string) (v : V) :
  NoDup (Obj.keys o) -> NoDup (Obj.keys (Obj.set o k v)).
Proof.
  intros H. rewrite keys_set.
  destruct (existsb (String.eqb k) (Obj.keys o)) eqn:E; [exact H|].
  apply NoDup_app; [exact H | repeat constructor; intros [] |].
  intros x Hx [->|[]].
  assert (existsb (String.eqb x) (Obj.keys o) = true).
  { apply existsb_exists. exists x. split; [exact Hx | apply String.eqb_refl]. }
  congruence.
Qed.

Lemma keys_set_In {V : Type} (o : Obj.t V) (k k' : string) (v : V) :
  In k' (Obj.keys (Obj.set o k v)) -> k' = k \/ In k' (Obj.keys o).
Proof.
  rewrite keys_set.
  destruct (existsb (String.eqb k) (Obj.keys o)); [now right|].
  intros H. apply in_app_or in H. destruct H as [H|[<-|[]]]; [now right | now left].
Qed.

(** ** The last [forEach] *)

Lemma monthStep_eq (byMonth : Obj.t number) (acc : Obj.t (list MonthlyReturn.t)) (k : string) :
  monthStep byMonth acc k
  = Obj.set acc (yearOf k)
      (match Obj.get acc (yearOf k) with
       | Some l => l ++ [entryOf byMonth k]
       | None => [entryOf byMonth k]
       end).
Proof. reflexivity. Qed.

Lemma fold_monthStep (byMonth : Obj.t number) (y : string) (keys : list string) :
  forall acc,
  Obj.get (fold_left (monthStep byMonth) keys acc) y
  = filed byMonth y keys (Obj.get acc y).
Proof.
  induction keys as [|k keys IH]; intros acc.
  - reflexivity.
  - cbn [fold_left]. rewrite IH, monthStep_eq. unfold filed. cbn [filter].
    destruct (String.eqb_spec (yearOf k) y) as [E|E].
    + rewrite E, get_set_same.
      destruct (filter (fun k0 => String.eqb (yearOf k0) y) keys) as [|k' ks];
        cbn [map]; destruct (Obj.get acc y); cbn [app];
        rewrite <- ?app_assoc; reflexivity.
    + rewrite get_set_other by exact E. reflexivity.
Qed.

Lemma get_In_keys {V : Type} (o : Obj.t V) (k : string) (v : V) :
  Obj.get o k = Some v -> In k (Obj.keys o).
Proof.
  induction o as [|[k' v'] o IH]; simpl; [discriminate|].
  destruct (String.eqb_spec k' k) as [->|_]; [now left|].
  intros H. right. now apply IH.
Qed.

Lemma yearOf_monthKeyOf (y m : Z) :
  0 <= y -> 1 <= m <= 12 -> yearOf (monthKeyOf y m) = Str.ofZ y.
Proof. intros Hy Hm. unfold yearOf. now rewrite split_monthKeyOf. Qed.

Lemma monthOf_monthKeyOf (y m : Z) :
  0 <= y -> 1 <= m <= 12 -> monthOf (monthKeyOf y m) = Str.padStart2 (Str.ofZ m).
Proof. intros Hy Hm. unfold monthOf. now rewrite split_monthKeyOf. Qed.

(** The key of a year before 0 starts with a hyphen, and the year read
    off it is the empty string. *)
Lemma yearOf_negative (y m : Z) : y < 0 -> yearOf (monthKeyOf y m) = ""%string.
Proof.
  destruct y as [|p|p]; try lia. intros _. reflexivity.
Qed.

Lemma entryOf_monthKeyOf (byMonth : Obj.t number) (y m : Z) (v : number) :
  0 <= y -> 1 <= m <= 12 ->
  Obj.get byMonth (monthKeyOf y m) = Some v ->
  entryOf byMonth (monthKeyOf y m)
  = {| MonthlyReturn.month := Str.padStart2 (Str.ofZ m);
       MonthlyReturn.ret := monthRet v (Obj.get byMonth (precedingKey y m)) |}.
Proof.
  intros Hy Hm Hv. unfold entryOf.
  rewrite Hv, yearOf_monthKeyOf, monthOf_monthKeyOf, prevKey_monthKeyOf by assumption.
  reflexivity.
Qed.

Section Monthly.

Variable LocalTZA : Z -> Z.

Local Abbreviation byMonthOf := (byMonthOf LocalTZA).
Local Abbreviation monthKey := (monthKey LocalTZA).
Local Abbreviation monthReturnsOf := (monthReturnsOf LocalTZA).
Local Abbreviation localYear := (localYear LocalTZA).
Local Abbreviation localMonth := (localMonth LocalTZA).

Lemma localMonth_range (t : Z) : 1 <= localMonth t <= 12.
Proof.
  change (localMonth t) with (MonthFromTime (LocalTime LocalTZA t) + 1).
  unfold MonthFromTime.
  pose proof (civil_month_range (LocalTime LocalTZA t / msPerDay)). lia.
Qed.

Lemma monthKey_valid (r : Row) (t : Z) :
  date r = Some t -> monthKey r = monthKeyOf (localYear t) (localMonth t).
Proof.
  intros H.
  change (monthKey r)
    with (Str.ofInteger (getFullYear LocalTZA (date r)) ++ "-"
          ++ Str.padStart2
               (Str.ofInteger
                  (option_map (fun m => m + 1) (getMonth LocalTZA (date r)))))%string.
  rewrite H. reflexivity.
Qed.

Lemma monthKey_in_keys (rows : list Row) (r : Row) :
  In r rows -> In (monthKey r) (keysSorted (byMonthOf rows)).
Proof.
  intros H. unfold keysSorted. apply sort_In.
  destruct (lastInMonth LocalTZA (monthKey r) rows) as [r'|] eqn:E.
  - apply get_In_keys with (v := nav r').
    rewrite byMonthOf_get, E. reflexivity.
  - unfold lastInMonth in E.
    apply in_rev in H. apply (find_none _ _ E r) in H.
    rewrite String.eqb_refl in H. discriminate.
Qed.

Lemma monthReturnsOf_get (rows : list Row) (y : string) :
  Obj.get (monthReturnsOf rows) y
  = filed (byMonthOf rows) y (keysSorted (byMonthOf rows)) None.
Proof. apply (fold_monthStep (byMonthOf rows) y _ []). Qed.

(** X1, the part of C1 the program follows: the return of a month of a
    year from 0 on is computed from the bucket of the calendar month
    before, December of the year before for a January, and is [null] when
    that bucket is missing or holds nothing positive. *)
Theorem monthly_return_uses_exact_predecessor (rows : list Row) (r : Row) (t : Z) :
  In r rows -> date r = Some t -> 0 <= localYear t ->
  exists v l,
    Obj.get (byMonthOf rows) (monthKeyOf (localYear t) (localMonth t)) = Some v
    /\ Obj.get (monthReturnsOf rows) (Str.ofZ (localYear t)) = Some l
    /\ In {| MonthlyReturn.month := Str.padStart2 (Str.ofZ (localMonth t));
             MonthlyReturn.ret :=
               monthRet v (Obj.get (byMonthOf rows)
                                   (precedingKey (localYear t) (localMonth t))) |} l.
Proof.
  intros Hin Hd Hy.
  pose proof (localMonth_range t) as Hm.
  pose proof (monthKey_in_keys rows r Hin) as Hk.
  rewrite (monthKey_valid r t Hd) in Hk.
  set (k := monthKeyOf (localYear t) (localMonth t)) in *.
  assert (Hv : exists v, Obj.get (byMonthOf rows) k = Some v).
  { rewrite byMonthOf_get. unfold lastInMonth.
    destruct (find _ (rev rows)) as [r'|] eqn:E; [now eexists|].
    apply in_rev in Hin. apply (find_none _ _ E r) in Hin.
    rewrite (monthKey_valid r t Hd) in Hin.
    fold k in Hin. rewrite String.eqb_refl in Hin. discriminate. }
  destruct Hv as [v Hv]. exists v.
  rewrite monthReturnsOf_get. unfold filed.
  assert (Hf : In k (filter (fun k0 => String.eqb (yearOf k0) (Str.ofZ (localYear t)))
                            (keysSorted (byMonthOf rows)))).
  { apply filter_In. split; [exact Hk|].
    unfold k. rewrite yearOf_monthKeyOf by assumption. apply String.eqb_refl. }
  destruct (filter _ (keysSorted (byMonthOf rows))) as [|k' ks] eqn:E; [contradiction|].
  eexists. split; [exact Hv|]. split; [reflexivity|].
  cbn [app]. rewrite <- (entryOf_monthKeyOf (byMonthOf rows) _ _ v Hy Hm Hv).
  apply in_map. exact Hf.
Qed.

Lemma keys_from_rows (rows : list Row) (k : string) :
  In k (Obj.keys (byMonthOf rows)) -> exists r, In r rows /\ k = monthKey r.
Proof.
  induction rows as [|r rows IH] using rev_ind; [intros []|].
  rewrite byMonthOf_snoc. intros H. apply keys_set_In in H.
  destruct H as [->|H].
  - exists r. split; [apply in_or_app; right; now left | reflexivity].
  - destruct (IH H) as [r' [Hr' ->]]. exists r'.
    split; [apply in_or_app; now left | reflexivity].
Qed.

Lemma keys_NoDup (rows : list Row) : NoDup (Obj.keys (byMonthOf rows)).
Proof.
  induction rows as [|r rows IH] using rev_ind; [constructor|].
  rewrite byMonthOf_snoc. now apply keys_set_NoDup.
Qed.

Lemma keysSorted_strict (o : Obj.t number) :
  NoDup (Obj.keys o) ->
  StronglySorted (fun a b => String.ltb a b = true) (keysSorted o).
Proof.
  intros Hn. unfold keysSorted.
  apply StronglySorted_strict with (R := fun a b => String.leb a b = true).
  - exact string_leb_ltb.
  - apply (Permutation_NoDup (sort_perm _ _)). exact Hn.
  - apply sort_sorted with (ok := fun _ => True).
    + intros x y _ _. unfold String.ltb, String.leb.
      rewrite (String.compare_antisym x y).
      destruct (String.compare y x); simpl; congruence.
    + intros x y _ _. unfold String.ltb, String.leb.
      destruct (String.compare y x); congruence.
    + exact string_leb_trans.
    + apply Forall_forall. trivial.
Qed.

(** A key filed under a year other than [""] is that year, a hyphen and
    the month. *)
Lemma key_shape (rows : list Row) (k : string) :
  Forall validDate rows ->
  In k (keysSorted (byMonthOf rows)) -> yearOf k <> ""%string ->
  k = (yearOf k ++ "-" ++ monthOf k)%string.
Proof.
  intros Hd Hk Hy. unfold keysSorted in Hk. apply sort_In in Hk.
  destruct (keys_from_rows rows k Hk) as [r [Hr ->]].
  rewrite Forall_forall in Hd. specialize (Hd r Hr).
  unfold validDate in Hd. destruct (date r) as [t|] eqn:E; [|discriminate].
  rewrite (monthKey_valid r t E) in *.
  pose proof (localMonth_range t) as Hm.
  destruct (Z_lt_le_dec (localYear t) 0) as [Hneg|Hpos].
  - rewrite yearOf_negative in Hy by exact Hneg. contradiction.
  - rewrite yearOf_monthKeyOf, monthOf_monthKeyOf by assumption. reflexivity.
Qed.

Lemma append_assoc (a b c : string) : ((a ++ b) ++ c = a ++ b ++ c)%string.
Proof. induction a as [|x a IH]; simpl; congruence. Qed.

(** X2, the part of C10 the program follows: within every year other
    than [""], which is every year from 0 on, the month strings of the
    entries are strictly increasing. *)
Theorem months_strictly_increase (rows : list Row) (y : string) (l : list MonthlyReturn.t) :
  Forall validDate rows -> y <> ""%string ->
  Obj.get (monthReturnsOf rows) y = Some l ->
  StronglySorted
    (fun a b => String.ltb (MonthlyReturn.month a) (MonthlyReturn.month b) = true) l.
Proof.
  intros Hd Hy Hl. rewrite monthReturnsOf_get in Hl. unfold filed in Hl.
  pose proof (keysSorted_strict _ (keys_NoDup rows)) as Hs.
  apply (StronglySorted_filter _ (fun k => String.eqb (yearOf k) y)) in Hs.
  assert (Hks : forall k,
             In k (filter (fun k => String.eqb (yearOf k) y) (keysSorted (byMonthOf rows))) ->
             k = (y ++ "-" ++ monthOf k)%string).
  { intros k Hk. apply filter_In in Hk. destruct Hk as [Hk E].
    apply String.eqb_eq in E. rewrite <- E at 1. apply (key_shape rows); congruence. }
  destruct (filter _ (keysSorted (byMonthOf rows))) as [|k ks]; [discriminate|].
  injection Hl as <-.
  apply (StronglySorted_map (fun a b => String.ltb a b = true) _
           (entryOf (byMonthOf rows)) (k :: ks)); [|exact Hs].
  intros a b Ha Hb Hab. cbn [entryOf MonthlyReturn.month].
  rewrite (Hks a Ha), (Hks b Hb) in Hab.
  unfold String.ltb in *.
  rewrite <- !(append_assoc y "-") in Hab.
  rewrite compare_prefix in Hab. exact Hab.
Qed.

End Monthly.

(* ================================================================== *)
(** * The two stages together *)
(* ================================================================== *)

(** X5: on what the normalizer returns, [computeSeries] returns a series;
    nothing is thrown, whatever the sheet holds. *)
Theorem computeSeries_total
    (StringToNumber DateParse : string -> number) (LocalTZA : Z -> Z)
    (raw : list RawRecord) :
  exists s,
    computeSeries LocalTZA (parseSheetData StringToNumber DateParse raw) = Some s.
Proof. apply computeSeries_valid, parseSheetData_valid. Qed.

(** C9 (as amended): when no raw record passes the filter of the program,
    the input being empty or every record having an invalid date or a nav
    that is coerced to NaN, the normalizer returns the empty array and
    [computeSeries] returns three empty outputs without throwing. *)
Theorem all_invalid_gives_empty_series
    (StringToNumber DateParse : string -> number) (LocalTZA : Z -> Z)
    (raw : list RawRecord) :
  (forall r, In r raw -> keep (toRow StringToNumber DateParse r) = false) ->
  parseSheetData StringToNumber DateParse raw = []
  /\ computeSeries LocalTZA (parseSheetData StringToNumber DateParse raw)
     = Some emptySeries.
Proof.
  intros H. rewrite (parseSheetData_all_invalid _ _ _ H). split; reflexivity.
Qed.

(** The scenario of the specification: every ["Nav"] is the string ["abc"]. *)
Lemma all_invalid_gives_empty_series_abc :
  Runtime.parse [record (VString "2023-01-31") (VString "abc");
                 record (VString "2023-02-28") (VString "abc")] = []
  /\ Runtime.compute
       (Runtime.parse [record (VString "2023-01-31") (VString "abc");
                       record (VString "2023-02-28") (VString "abc")])
     = Some emptySeries.
Proof.
  apply (all_invalid_gives_empty_series
           Runtime.StringToNumber Runtime.DateParse Runtime.LocalTZA).
  intros r [<-|[<-|[]]]; vm_compute; reflexivity.
Defined.

(* ================================================================== *)
(** * The order of numbers *)
(* ================================================================== *)

Lemma compare_cont_Eq (p q : positive) : Pos.compare_cont Eq p q = Pos.compare p q.
Proof. reflexivity. Qed.

Lemma SFcompare_antisym (x y : number) :
  SFcompare x y = option_map CompOpp (SFcompare y x).
Proof.
  destruct x as [sx|sx| |sx mx ex], y as [sy|sy| |sy my ey]; simpl;
    try reflexivity;
    try (destruct sx; reflexivity); try (destruct sy; reflexivity);
    try (destruct sx, sy; reflexivity).
  rewrite !compare_cont_Eq.
  rewrite (Z.compare_antisym ey ex), (Pos.compare_antisym my mx).
  destruct sx, sy; try reflexivity;
    destruct (ey ?= ex); simpl; try reflexivity;
    destruct (my ?= mx)%positive; reflexivity.
Qed.

Lemma leb_refl (x : number) : isNaN x = false -> leb x x = true.
Proof.
  destruct x as [s|s| |s m e]; try discriminate; intros _;
    unfold leb, SFleb; simpl.
  - reflexivity.
  - destruct s; reflexivity.
  - rewrite compare_cont_Eq, Z.compare_refl, Pos.compare_refl.
    destruct s; reflexivity.
Qed.

Lemma not_gtb_leb (x y : number) :
  isNaN x = false -> isNaN y = false -> gtb x y = false -> leb x y = true.
Proof.
  unfold gtb, leb, SFltb, SFleb. rewrite (SFcompare_antisym x y).
  destruct x as [sx|sx| |sx mx ex], y as [sy|sy| |sy my ey];
    try discriminate; intros _ _;
    destruct (SFcompare _ _) as [[]|] eqn:E; simpl; try congruence;
    simpl in E; try discriminate.
Qed.

Lemma gtb_leb (x y : number) : gtb x y = true -> leb y x = true.
Proof.
  unfold gtb, leb, SFltb, SFleb.
  destruct (SFcompare y x) as [[]|]; congruence.
Qed.

Lemma gtb_not_NaN (x y : number) : gtb x y = true -> isNaN x = false.
Proof.
  unfold gtb, SFltb.
  destruct x as [sx|sx| |sx mx ex]; try reflexivity.
  destruct y; discriminate.
Qed.

Lemma leb_rank (x y : number) :
  isNaN x = false -> isNaN y = false ->
  leb x y = true <-> rankLe (rank x) (rank y).
Proof.
  unfold leb, SFleb.
  destruct x as [sx|sx| |sx mx ex], y as [sy|sy| |sy my ey];
    try discriminate; intros _ _; simpl;
    try (destruct sx); try (destruct sy); simpl;
    try (split; [intros _; lia | reflexivity]);
    try (split; [discriminate | lia]);
    rewrite ?compare_cont_Eq;
    destruct (Z.compare_spec ex ey); destruct (Pos.compare_spec mx my);
    simpl; split; try discriminate; try reflexivity; try lia;
    intros _; try lia.
Qed.

Lemma leb_trans (x y z : number) :
  leb x y = true -> leb y z = true -> leb x z = true.
Proof.
  intros H1 H2.
  assert (Nx : isNaN x = false) by (destruct x; try reflexivity; discriminate).
  assert (Ny : isNaN y = false)
    by (destruct y; try reflexivity; destruct x; discriminate).
  assert (Nz : isNaN z = false)
    by (destruct z; try reflexivity; destruct y; discriminate).
  apply leb_rank in H1; try assumption. apply leb_rank in H2; try assumption.
  apply leb_rank; try assumption.
  unfold rankLe in *.
  destruct (rank x) as [[a1 a2] a3], (rank y) as [[b1 b2] b3], (rank z) as [[c1 c2] c3].
  lia.
Qed.

(* ================================================================== *)
(** * The normalizer: what is kept, and in which order *)
(* ================================================================== *)

(** A list sorted by an order no two elements of which are related both
    ways is the only sorted arrangement of its elements. *)
Lemma sorted_unique {A : Type} (R : A -> A -> Prop) :
  (forall x y, R x y -> R y x -> False) ->
  forall l1 l2 : list A,
  StronglySorted R l1 -> StronglySorted R l2 -> Permutation l1 l2 -> l1 = l2.
Proof.
  intros asym. induction l1 as [|a l1 IH]; intros l2 S1 S2 P.
  - apply Permutation_nil in P. now subst.
  - destruct l2 as [|b l2].
    { apply Permutation_sym, Permutation_nil in P. discriminate. }
    inversion S1 as [|? ? S1' F1]; subst.
    inversion S2 as [|? ? S2' F2]; subst.
    rewrite Forall_forall in F1, F2.
    assert (E : a = b).
    { assert (Ha : In a (b :: l2)) by (apply (Permutation_in _ P); now left).
      assert (Hb : In b (a :: l1))
        by (apply (Permutation_in _ (Permutation_sym P)); now left).
      destruct Ha as [Ha|Ha]; [now symmetry|].
      destruct Hb as [Hb|Hb]; [assumption|].
      exfalso. apply (asym a b); [now apply F1 | now apply F2]. }
    subst b. f_equal. apply IH; try assumption.
    now apply Permutation_cons_inv in P.
Qed.

Lemma filter_perm {A : Type} (p : A -> bool) (l l' : list A) :
  Permutation l l' -> Permutation (filter p l) (filter p l').
Proof.
  induction 1 as [|x l l' _ IH|x y l|l l' l'' _ IH1 _ IH2]; simpl.
  - apply perm_nil.
  - destruct (p x); [now apply perm_skip | assumption].
  - destruct (p x), (p y); try apply Permutation_refl. apply perm_swap.
  - now apply perm_trans with (filter p l').
Qed.

Lemma sorted_strict_by_key (l : list Row) :
  NoDup (map date l) -> StronglySorted dateLe l -> StronglySorted dateLt l.
Proof.
  intros Hn Hs. induction Hs as [|a l Hs IH Ha]; [constructor|].
  simpl in Hn. inversion Hn as [|? ? Hnot Hn']; subst.
  constructor; [now apply IH|].
  apply Forall_forall. intros b Hb. rewrite Forall_forall in Ha.
  specialize (Ha b Hb). unfold dateLe, dateLt in *.
  destruct (date a) as [ta|] eqn:Ea, (date b) as [tb|] eqn:Eb; try contradiction.
  destruct (Z.eq_dec ta tb) as [->|Hne]; [|lia].
  exfalso. apply Hnot. rewrite <- Eb. now apply in_map.
Qed.

Section Normalizer.

Variable StringToNumber : string -> number.
Variable DateParse : string -> number.

Local Abbreviation toRow := (toRow StringToNumber DateParse).
Local Abbreviation parseSheetData := (parseSheetData StringToNumber DateParse).

Lemma parseSheetData_sorted (raw : list RawRecord) :
  StronglySorted dateLe (parseSheetData raw).
Proof.
  destruct raw as [|r raw]; [constructor|].
  change (StronglySorted dateLe (sort dateAfter (filter keep (map toRow (r :: raw))))).
  apply sort_sorted with (ok := validDate).
  - exact dateAfter_false.
  - exact dateAfter_true.
  - exact dateLe_trans.
  - apply Forall_forall. intros x Hx. apply filter_In in Hx.
    destruct Hx as [_ Hx]. apply keep_spec in Hx. exact (proj1 Hx).
Qed.

(** X6: nothing is lost and nothing is made up: the output holds the kept
    rows, each as often as the sheet has it, so it is no longer than the
    sheet. *)
Theorem parseSheetData_permutation (raw : list RawRecord) :
  Permutation (parseSheetData raw) (filter keep (map toRow raw))
  /\ (List.length (parseSheetData raw) <= List.length raw)%nat.
Proof.
  pose proof (parseSheetData_perm StringToNumber DateParse raw) as P.
  split; [exact P|].
  rewrite (Permutation_length P).
  rewrite <- (length_map toRow raw). apply filter_length_le.
Qed.

(** X7: when no two kept rows carry the same time value the order of the sheet
    does not matter. *)
Theorem parseSheetData_order_independent (raw raw' : list RawRecord) :
  Permutation raw raw' ->
  NoDup (map date (filter keep (map toRow raw))) ->
  parseSheetData raw' = parseSheetData raw.
Proof.
  intros P Hn.
  assert (Q : Permutation (parseSheetData raw') (parseSheetData raw)).
  { eapply perm_trans; [apply parseSheetData_perm|].
    eapply perm_trans; [|apply Permutation_sym, parseSheetData_perm].
    apply filter_perm, Permutation_map, Permutation_sym, P. }
  assert (Hn1 : NoDup (map date (parseSheetData raw))).
  { apply (Permutation_NoDup (l := map date (filter keep (map toRow raw)))); [|exact Hn].
    apply Permutation_map, Permutation_sym, parseSheetData_perm. }
  assert (Hn2 : NoDup (map date (parseSheetData raw'))).
  { apply (Permutation_NoDup (l := map date (parseSheetData raw))); [|exact Hn1].
    apply Permutation_map, Permutation_sym, Q. }
  apply (sorted_unique dateLt).
  - unfold dateLt. intros x y. destruct (date x), (date y); lia.
  - apply sorted_strict_by_key; [exact Hn2|].
    apply parseSheetData_sorted.
  - apply sorted_strict_by_key; [exact Hn1|].
    apply parseSheetData_sorted.
  - exact Q.
Qed.

End Normalizer.

(* ================================================================== *)
(** * The engine: the running peak *)
(* ================================================================== *)

Lemma peakAfter_snoc (peak : number) (pre : list EquityPoint.t) (pt : EquityPoint.t) :
  peakAfter peak (pre ++ [pt])
  = if gtb (EquityPoint.value pt) (peakAfter peak pre)
    then EquityPoint.value pt else peakAfter peak pre.
Proof. unfold peakAfter. rewrite fold_left_app. reflexivity. Qed.

Lemma peakAfter_not_NaN (pre : list EquityPoint.t) :
  forall peak, isNaN peak = false -> isNaN (peakAfter peak pre) = false.
Proof.
  unfold peakAfter. induction pre as [|p pre IH]; intros peak H; simpl; [exact H|].
  apply IH. destruct (gtb (EquityPoint.value p) peak) eqn:G; [|exact H].
  now apply gtb_not_NaN in G.
Qed.

Lemma peakAfter_bounds (pre : list EquityPoint.t) :
  forall peak, isNaN peak = false ->
  leb peak (peakAfter peak pre) = true
  /\ forall q, In q pre -> isNaN (EquityPoint.value q) = false ->
               leb (EquityPoint.value q) (peakAfter peak pre) = true.
Proof.
  induction pre as [|p pre IH]; intros peak H.
  - split; [now apply leb_refl | intros q []].
  - change (peakAfter peak (p :: pre))
      with (peakAfter (if gtb (EquityPoint.value p) peak
                       then EquityPoint.value p else peak) pre).
    destruct (gtb (EquityPoint.value p) peak) eqn:G.
    + pose proof (gtb_not_NaN _ _ G) as Hp.
      destruct (IH _ Hp) as [B1 B2]. split.
      * apply leb_trans with (EquityPoint.value p); [now apply gtb_leb | exact B1].
      * intros q [<-|Hq] Hn; [exact B1 | now apply B2].
    + destruct (IH _ H) as [B1 B2]. split; [exact B1|].
      intros q [<-|Hq] Hn; [|now apply B2].
      apply leb_trans with peak; [now apply not_gtb_leb | exact B1].
Qed.

(** The peak the second loop holds after any number of points is never
    NaN, is [-Infinity] or one of the values met, and is at least every
    value met that is a number: it is their maximum. *)
Lemma running_peak_is_max (pre : list EquityPoint.t) :
  isNaN (peakAfter NInf pre) = false
  /\ (peakAfter NInf pre = NInf
      \/ exists q, In q pre /\ peakAfter NInf pre = EquityPoint.value q)
  /\ forall q, In q pre -> isNaN (EquityPoint.value q) = false ->
               leb (EquityPoint.value q) (peakAfter NInf pre) = true.
Proof.
  split; [now apply peakAfter_not_NaN|].
  split; [apply peakAfter_cases|].
  now apply peakAfter_bounds.
Qed.

(** Each drawdown is computed from the value of its point and the peak
    over the points up to it, that one included, and carries its date. *)
Lemma drawdown_from_running_peak
    (pre : list EquityPoint.t) (pt : EquityPoint.t) (post : list EquityPoint.t) :
  nth_error (drawdownFrom NInf (pre ++ pt :: post)) (List.length pre)
  = Some {| DrawdownPoint.date := EquityPoint.date pt;
            DrawdownPoint.drawdown :=
              toFixed2
                (mul (div (sub (EquityPoint.value pt) (peakAfter NInf (pre ++ [pt])))
                          (peakAfter NInf (pre ++ [pt])))
                     hundred) |}.
Proof.
  rewrite drawdownFrom_app, drawdownFrom_cons. cbv zeta.
  rewrite nth_error_app2 by (rewrite drawdownFrom_length; lia).
  rewrite drawdownFrom_length, Nat.sub_diag, peakAfter_snoc. reflexivity.
Qed.

(* ================================================================== *)
(** * The engine: values that are not numbers *)
(* ================================================================== *)

Lemma signed_not_NaN (s : bool) (x : number) : signed s x -> isNaN x = false.
Proof. destruct x; simpl; try reflexivity. contradiction. Qed.

Lemma div_NaN (x y : number) :
  isNaN x = false -> isNaN y = false ->
  isNaN (div x y) = undefinedQuotient x y.
Proof.
  destruct x as [sx|sx| |sx mx ex], y as [sy|sy| |sy my ey];
    try discriminate; intros _ _; try reflexivity.
  apply (signed_not_NaN _ _ (div_signed sx sy mx my ex ey)).
Qed.

Lemma mul_hundred_NaN (x : number) : isNaN (mul x hundred) = isNaN x.
Proof.
  destruct x as [s|s| |s m e]; try reflexivity.
  apply (signed_not_NaN (xorb s false)).
  apply binary_round_aux_signed. lia.
Qed.

Lemma toFixed2_NaN (x : number) : isNaN (toFixed2 x) = isNaN x.
Proof.
  destruct x as [s|s| |s m e]; try reflexivity.
  unfold toFixed2. destruct (ge_1e21 m e); [reflexivity|].
  destruct (scaled100 m e); try reflexivity.
  apply (signed_not_NaN s), ofRatio_signed.
Qed.

Lemma binary_normalize_not_NaN (z e : Z) (s : bool) :
  isNaN (binary_normalize prec emax z e s) = false.
Proof.
  destruct z as [|p|p]; simpl; [reflexivity| |].
  - apply (signed_not_NaN false), binary_round_signed.
  - apply (signed_not_NaN true), binary_round_signed.
Qed.

Lemma sub_one_NaN (x : number) : isNaN (sub x one) = isNaN x.
Proof.
  destruct x as [s|s| |s m e]; try reflexivity.
  unfold sub, one, SFsub. apply binary_normalize_not_NaN.
Qed.

(** The equity value of a row is NaN in two cases only: the nav and the
    base are both zero, or both infinite. *)
Lemma equityValue_NaN (base : number) (r : Row) :
  isNaN (nav r) = false -> isNaN base = false ->
  isNaN (equityValue base r) = undefinedQuotient (nav r) base.
Proof.
  intros Hr Hb. unfold equityValue.
  rewrite toFixed2_NaN, mul_hundred_NaN. now apply div_NaN.
Qed.

(** A monthly return is NaN only when the nav of the month and that of
    the month before are both infinite. *)
Lemma monthRet_NaN (val p x : number) :
  isNaN val = false ->
  monthRet val (Some p) = Some x ->
  isNaN x = isInfinite val && isInfinite p.
Proof.
  intros Hv. unfold monthRet.
  destruct (truthy p && gtb p PZero) eqn:E; [|discriminate].
  intros H. injection H as <-.
  rewrite toFixed2_NaN, mul_hundred_NaN, sub_one_NaN.
  apply andb_true_iff in E. destruct E as [T G].
  rewrite div_NaN; [|assumption|now destruct p].
  unfold undefinedQuotient.
  destruct p; try discriminate; simpl; now rewrite ?andb_false_r.
Qed.

(* ================================================================== *)
(** * The engine: the shape of its outputs *)
(* ================================================================== *)

Lemma In_keys_get {V : Type} (o : Obj.t V) (k : string) :
  In k (Obj.keys o) -> exists v, Obj.get o k = Some v.
Proof.
  induction o as [|[k' v'] o IH]; simpl; [intros []|].
  destruct (String.eqb_spec k' k) as [->|Hne]; [now eexists|].
  intros [H|H]; [contradiction | now apply IH].
Qed.

Lemma equityFrom_dates (base : number) (rows : list Row) :
  forall eq, equityFrom base rows = Some eq ->
  map (fun p => Some (EquityPoint.date p)) eq = map (fun r => toISODate (date r)) rows.
Proof.
  induction rows as [|r rows IH]; simpl; intros eq H.
  - injection H as <-. reflexivity.
  - unfold equityPoint in H.
    destruct (toISODate (date r)) as [d|]; [|discriminate].
    destruct (equityFrom base rows) as [pts|]; [|discriminate].
    injection H as <-. simpl. now rewrite (IH pts eq_refl).
Qed.

Lemma drawdownFrom_dates (eq : list EquityPoint.t) :
  forall peak,
  map DrawdownPoint.date (drawdownFrom peak eq) = map EquityPoint.date eq.
Proof.
  induction eq as [|p eq IH]; intros peak; [reflexivity|].
  rewrite drawdownFrom_cons. cbv zeta. simpl. now rewrite IH.
Qed.

Section EngineShape.

Variable LocalTZA : Z -> Z.

Local Abbreviation computeSeries := (computeSeries LocalTZA).
Local Abbreviation byMonthOf := (byMonthOf LocalTZA).
Local Abbreviation monthKey := (monthKey LocalTZA).
Local Abbreviation monthReturnsOf := (monthReturnsOf LocalTZA).
Local Abbreviation localYear := (localYear LocalTZA).
Local Abbreviation localMonth := (localMonth LocalTZA).

(** X3: one equity point and one drawdown point per row, in the order of the
    rows: the equity point carries the UTC day of its row and the value of its
    nav against the first, the drawdown point the date of the equity point. *)
Theorem series_point_per_row (r0 : Row) (rows : list Row) :
  Forall validDate (r0 :: rows) ->
  exists s,
    computeSeries (r0 :: rows) = Some s
    /\ map (fun p => Some (EquityPoint.date p)) (equity s)
       = map (fun r => toISODate (date r)) (r0 :: rows)
    /\ map EquityPoint.value (equity s) = map (equityValue (nav r0)) (r0 :: rows)
    /\ map DrawdownPoint.date (drawdown s) = map EquityPoint.date (equity s).
Proof.
  intros Hd.
  destruct (equityFrom_valid (nav r0) _ Hd) as [eq [E V]].
  rewrite computeSeries_eq, E. eexists. split; [reflexivity|].
  cbn [equity drawdown].
  split; [now apply equityFrom_dates with (base := nav r0)|].
  split; [exact V | apply drawdownFrom_dates].
Qed.

(** X8: an equity value is NaN exactly where the nav and the first nav are
    both zero or both infinite. *)
Theorem equity_NaN_iff (r0 : Row) (rows : list Row) :
  Forall validDate (r0 :: rows) ->
  Forall (fun r => isNaN (nav r) = false) (r0 :: rows) ->
  exists s,
    computeSeries (r0 :: rows) = Some s
    /\ map (fun p => isNaN (EquityPoint.value p)) (equity s)
       = map (fun r => undefinedQuotient (nav r) (nav r0)) (r0 :: rows).
Proof.
  intros Hd Hn.
  destruct (computeSeries_cons LocalTZA r0 rows Hd) as [eq [E V]].
  eexists. split; [exact E|]. cbn [equity].
  rewrite <- (map_map EquityPoint.value isNaN), V, map_map.
  apply map_ext_in. intros r Hr. rewrite Forall_forall in Hn.
  apply equityValue_NaN; apply Hn; [exact Hr | now left].
Qed.

(** Every key of [byMonth] has its entry under the year read off it. *)
Lemma entry_filed (rows : list Row) (k : string) :
  In k (keysSorted (byMonthOf rows)) ->
  exists l, Obj.get (monthReturnsOf rows) (yearOf k) = Some l
            /\ In (entryOf (byMonthOf rows) k) l.
Proof.
  intros Hk. rewrite monthReturnsOf_get. unfold filed.
  assert (Hf : In k (filter (fun k0 => String.eqb (yearOf k0) (yearOf k))
                            (keysSorted (byMonthOf rows)))).
  { apply filter_In. split; [exact Hk | apply String.eqb_refl]. }
  destruct (filter _ (keysSorted (byMonthOf rows))) as [|k' ks]; [contradiction|].
  eexists. split; [reflexivity|]. cbn [app].
  now apply (in_map (entryOf (byMonthOf rows)) (k' :: ks)).
Qed.

(** Every entry under a year is the entry of a key of [byMonth] that
    reads that year. *)
Lemma filed_entry (rows : list Row) (y : string) (l : list MonthlyReturn.t) :
  Obj.get (monthReturnsOf rows) y = Some l ->
  l <> []
  /\ forall e, In e l ->
       exists k, In k (keysSorted (byMonthOf rows)) /\ yearOf k = y
                 /\ e = entryOf (byMonthOf rows) k.
Proof.
  rewrite monthReturnsOf_get. unfold filed.
  destruct (filter _ (keysSorted (byMonthOf rows))) as [|k' ks] eqn:E; [discriminate|].
  intros H. injection H as <-. split; [discriminate|].
  intros e He. cbn [app] in He.
  change (In e (map (entryOf (byMonthOf rows)) (k' :: ks))) in He.
  apply in_map_iff in He. destruct He as [k [<- Hk]]. rewrite <- E in Hk. apply filter_In in Hk.
  destruct Hk as [Hk Hy]. apply String.eqb_eq in Hy. now exists k.
Qed.

Lemma key_of_row (rows : list Row) (k : string) :
  In k (keysSorted (byMonthOf rows)) ->
  exists r, In r rows /\ k = monthKey r
            /\ Obj.get (byMonthOf rows) k <> None.
Proof.
  intros Hk. unfold keysSorted in Hk. apply sort_In in Hk.
  destruct (keys_from_rows LocalTZA rows k Hk) as [r [Hr ->]].
  exists r. split; [exact Hr|]. split; [reflexivity|].
  destruct (In_keys_get _ _ Hk) as [v ->]. discriminate.
Qed.

Lemma bucket_nav (rows : list Row) (k : string) (v : number) :
  Obj.get (byMonthOf rows) k = Some v -> exists r, In r rows /\ nav r = v.
Proof.
  rewrite byMonthOf_get. unfold lastInMonth.
  destruct (find _ (rev rows)) as [r|] eqn:E; [|discriminate].
  intros H. injection H as <-. apply find_some in E.
  exists r. split; [apply in_rev; tauto | reflexivity].
Qed.

(** X11: with finite navs throughout no monthly return is NaN. *)
Theorem monthly_returns_not_NaN
    (rows : list Row) (y : string) (l : list MonthlyReturn.t)
    (e : MonthlyReturn.t) (x : number) :
  Forall (fun r => isFinite (nav r) = true) rows ->
  Obj.get (monthReturnsOf rows) y = Some l -> In e l ->
  MonthlyReturn.ret e = Some x -> isNaN x = false.
Proof.
  intros Hfin Hl He Hx.
  destruct (filed_entry rows y l Hl) as [_ Hs].
  destruct (Hs e He) as [k [Hk [_ ->]]].
  destruct (key_of_row rows k Hk) as [_ [_ [_ Hv]]].
  unfold entryOf in Hx. cbn [MonthlyReturn.ret] in Hx.
  destruct (Obj.get (byMonthOf rows) k) as [v|] eqn:Ev; [|contradiction].
  destruct (bucket_nav rows k v Ev) as [r [Hr <-]].
  rewrite Forall_forall in Hfin. specialize (Hfin r Hr).
  destruct (Obj.get (byMonthOf rows) (prevKey (yearOf k) (monthOf k))) as [p|];
    [|discriminate].
  rewrite (monthRet_NaN (nav r) p x); [| now destruct (nav r) | exact Hx].
  destruct (nav r); try discriminate; reflexivity.
Qed.

(** X12: a year is in the matrix exactly when the key of some row reads that
    year, and then its list of entries is not empty. *)
Theorem year_listed_iff (rows : list Row) (y : string) :
  (Obj.get (monthReturnsOf rows) y <> None
   <-> exists r, In r rows /\ yearOf (monthKey r) = y)
  /\ Obj.get (monthReturnsOf rows) y <> Some [].
Proof.
  split; [split|].
  - destruct (Obj.get (monthReturnsOf rows) y) as [l|] eqn:E; [|congruence].
    intros _. destruct (filed_entry rows y l E) as [Hne Hs].
    destruct l as [|e l]; [congruence|].
    destruct (Hs e (or_introl eq_refl)) as [k [Hk [Hy _]]].
    destruct (key_of_row rows k Hk) as [r [Hr [-> _]]]. now exists r.
  - intros [r [Hr <-]].
    destruct (entry_filed rows (monthKey r) (monthKey_in_keys LocalTZA rows r Hr))
      as [l [-> _]]. discriminate.
  - intros E. now destruct (filed_entry rows y [] E).
Qed.

(** X4: the return of a month of a year from 0 on is [null] when no row falls
    in the calendar month before. *)
Theorem return_null_without_predecessor (rows : list Row) (r : Row) (t : Z) :
  In r rows -> date r = Some t -> 0 <= localYear t ->
  (forall r', In r' rows ->
     monthKey r' <> precedingKey (localYear t) (localMonth t)) ->
  exists l,
    Obj.get (monthReturnsOf rows) (Str.ofZ (localYear t)) = Some l
    /\ In {| MonthlyReturn.month := Str.padStart2 (Str.ofZ (localMonth t));
             MonthlyReturn.ret := None |} l.
Proof.
  intros Hin Hd Hy Hnone.
  pose proof (localMonth_range LocalTZA t) as Hm.
  pose proof (monthKey_in_keys LocalTZA rows r Hin) as Hk.
  rewrite (monthKey_valid LocalTZA r t Hd) in Hk.
  destruct (entry_filed rows _ Hk) as [l [Hl He]].
  rewrite yearOf_monthKeyOf in Hl by assumption.
  exists l. split; [exact Hl|].
  destruct (key_of_row rows _ Hk) as [_ [_ [_ Hv]]].
  destruct (Obj.get (byMonthOf rows) (monthKeyOf (localYear t) (localMonth t)))
    as [v|] eqn:Ev; [|contradiction].
  rewrite (entryOf_monthKeyOf _ _ _ v Hy Hm Ev) in He.
  assert (Hp : Obj.get (byMonthOf rows) (precedingKey (localYear t) (localMonth t)) = None).
  { destruct (Obj.get (byMonthOf rows) (precedingKey (localYear t) (localMonth t)))
      as [p|] eqn:Ep; [|reflexivity].
    exfalso. rewrite byMonthOf_get in Ep. unfold lastInMonth in Ep.
    destruct (find _ (rev rows)) as [r'|] eqn:F; [|discriminate].
    apply find_some in F. destruct F as [F1 F2].
    apply String.eqb_eq in F2. apply (Hnone r'); [now apply in_rev | exact F2]. }
  rewrite Hp in He. exact He.
Qed.

End EngineShape.

Lemma equityValue_zero_base (base : number) (r : Row) :
  isZero base = true -> isFinite (equityValue base r) = false.
Proof.
  unfold equityValue. destruct base as [sb|sb| |sb mb eb]; try discriminate.
  intros _. destruct (nav r) as [s|s| |s m e]; reflexivity.
Qed.

Lemma drawdownFrom_not_finite (eq : list EquityPoint.t) :
  forall peak,
  Forall (fun p => isFinite (EquityPoint.value p) = false) eq ->
  peak = NInf \/ peak = PInf ->
  Forall (fun d => isNaN (DrawdownPoint.drawdown d) = true) (drawdownFrom peak eq).
Proof.
  induction eq as [|p eq IH]; intros peak Hf Hp; [constructor|].
  inversion Hf as [|? ? Hv Hf']; subst.
  rewrite drawdownFrom_cons. cbv zeta.
  destruct (EquityPoint.value p) as [s|[|]| |s m e]; try discriminate;
    destruct Hp as [->| ->]; (constructor; [reflexivity | apply IH; [exact Hf'|]]);
    (now left) || (now right).
Qed.

Section EngineEdge.

Variable LocalTZA : Z -> Z.

Local Abbreviation computeSeries := (computeSeries LocalTZA).

(** X9: when the first nav is zero no equity value is finite and every
    drawdown is NaN. *)
Theorem zero_base_ruins_series (r0 : Row) (rows : list Row) :
  Forall validDate (r0 :: rows) -> isZero (nav r0) = true ->
  exists s,
    computeSeries (r0 :: rows) = Some s
    /\ Forall (fun p => isFinite (EquityPoint.value p) = false) (equity s)
    /\ Forall (fun d => isNaN (DrawdownPoint.drawdown d) = true) (drawdown s).
Proof.
  intros Hd Hz.
  destruct (computeSeries_cons LocalTZA r0 rows Hd) as [eq [E V]].
  eexists. split; [exact E|]. cbn [equity drawdown].
  assert (Hf : Forall (fun p => isFinite (EquityPoint.value p) = false) eq).
  { apply Forall_forall. intros p Hp.
    apply (in_map EquityPoint.value) in Hp. rewrite V in Hp.
    apply in_map_iff in Hp. destruct Hp as [r [<- _]].
    now apply equityValue_zero_base. }
  split; [exact Hf|]. apply drawdownFrom_not_finite; [exact Hf | now left].
Qed.

(** X10: each drawdown is computed from the value of its point and the peak
    over the points up to it, that one included, and carries the date of the
    point; the peak is never NaN, is [-Infinity] or one of those values, and
    is at least every one of them that is a number. *)
Theorem drawdown_from_running_max
    (rows : list Row) (s : Series)
    (pre : list EquityPoint.t) (pt : EquityPoint.t) (post : list EquityPoint.t) :
  computeSeries rows = Some s ->
  equity s = pre ++ pt :: post ->
  let peak := peakAfter NInf (pre ++ [pt]) in
  nth_error (drawdown s) (List.length pre)
  = Some {| DrawdownPoint.date := EquityPoint.date pt;
            DrawdownPoint.drawdown :=
              toFixed2 (mul (div (sub (EquityPoint.value pt) peak) peak) hundred) |}
  /\ isNaN peak = false
  /\ (peak = NInf \/ exists q, In q (pre ++ [pt]) /\ peak = EquityPoint.value q)
  /\ forall q, In q (pre ++ [pt]) -> isNaN (EquityPoint.value q) = false ->
               leb (EquityPoint.value q) peak = true.
Proof.
  intros Hs Heq peak.
  destruct rows as [|r0 rows].
  { injection Hs as <-. destruct pre; discriminate. }
  rewrite computeSeries_eq in Hs.
  destruct (equityFrom (nav r0) (r0 :: rows)) as [eq|]; [|discriminate].
  injection Hs as <-. cbn [equity drawdown] in *. subst eq.
  split; [apply drawdown_from_running_peak|].
  apply running_peak_is_max.
Qed.

End EngineEdge.

(* ================================================================== *)
(** * Date strings *)
(* ================================================================== *)

(** ** The length of a printed integer *)

Lemma digitOf_range (a : ascii) (d : Z) : Str.digitOf a = Some d -> 0 <= d <= 9.
Proof.
  unfold Str.digitOf.
  destruct (48 <=? Z.of_nat (nat_of_ascii a)) eqn:E1; [|discriminate].
  destruct (Z.of_nat (nat_of_ascii a) <=? 57) eqn:E2; [|discriminate].
  apply Z.leb_le in E1, E2. intros H. injection H as <-. lia.
Qed.

(** The value of a string of digits read after [acc] is at least [acc]
    followed by as many zeros. *)
Lemma digitsValue_lower (s : string) :
  forall acc v, 0 <= acc -> Str.digitsValue acc s = Some v ->
  acc * 10 ^ Z.of_nat (String.length s) <= v.
Proof.
  induction s as [|a s IH]; intros acc v Hacc H.
  - injection H as <-. simpl. lia.
  - cbn [Str.digitsValue] in H.
    destruct (Str.digitOf a) as [d|] eqn:Ed; [|discriminate].
    apply digitOf_range in Ed.
    apply IH in H; [|lia].
    cbn [String.length]. rewrite Nat2Z.inj_succ, Z.pow_succ_r by lia.
    pose proof (Z.pow_nonneg 10 (Z.of_nat (String.length s)) ltac:(lia)).
    nia.
Qed.

(** The decimal form of a positive number does not start with a zero. *)
Lemma to_uint_head (p : positive) :
  match Pos.to_uint p with
  | Decimal.Nil | Decimal.D0 _ => False
  | _ => True
  end.
Proof.
  pose proof (Unsigned.to_of (Pos.to_uint p)) as H.
  rewrite Unsigned.of_to in H. cbn [N.to_uint] in H.
  pose proof (Unsigned.to_uint_nonnil p) as Hn.
  destruct (Pos.to_uint p) as [|d| | | | | | | | | ] eqn:E; try exact I; [congruence|].
  unfold Decimal.unorm in H.
  pose proof (DecimalFacts.nzhead_nonzero (Decimal.D0 d)) as Hz.
  destruct (Decimal.nzhead (Decimal.D0 d)) eqn:Ez;
    try (exfalso; apply (Hz d); congruence).
  injection H as ->.
  pose proof (Unsigned.of_to p) as Hp. rewrite E in Hp. discriminate.
Qed.

(** A natural number below [10^k] is printed with at most [k]
    characters. *)
Lemma length_ofZ (k : nat) (n : Z) :
  (1 <= k)%nat -> 0 <= n < 10 ^ Z.of_nat k ->
  (String.length (Str.ofZ n) <= k)%nat.
Proof.
  intros Hk Hn. destruct n as [|p|p]; try lia.
  - exact Hk.
  - pose proof (toInteger_ofZ (Zpos p) ltac:(lia)) as V.
    rewrite ofZ_pos in *. unfold Str.toInteger in V.
    pose proof (to_uint_head p) as Hh.
    destruct (Pos.to_uint p) as [|d|d|d|d|d|d|d|d|d|d]; try contradiction;
      cbn [NilEmpty.string_of_uint] in *;
      revert V; digit_step digitsValue_step; intros V;
      apply digitsValue_lower in V; try lia;
      cbn [String.length];
      (assert (Hlt : 10 ^ Z.of_nat (String.length (NilEmpty.string_of_uint d))
                     < 10 ^ Z.of_nat k)
         by (pose proof (Z.pow_pos_nonneg 10
                           (Z.of_nat (String.length (NilEmpty.string_of_uint d)))
                           ltac:(lia) ltac:(lia)); nia));
      apply Z.pow_lt_mono_r_iff in Hlt; lia.
Qed.

Lemma length_padStart2 (n : Z) :
  0 <= n <= 99 -> String.length (Str.padStart2 (Str.ofZ n)) = 2%nat.
Proof.
  intros H. pose proof (length_ofZ 2 n ltac:(lia) ltac:(simpl; lia)) as L.
  unfold Str.padStart2.
  destruct (Str.ofZ n) as [|a [|b [|c s]]]; simpl in *; try reflexivity; lia.
Qed.

Lemma length_zeros (n : nat) :
  String.length (string_of_list_ascii (repeat "0"%char n)) = n.
Proof. induction n as [|n IH]; simpl; [reflexivity | now rewrite IH]. Qed.

Lemma length_append (a b : string) :
  String.length (a ++ b) = (String.length a + String.length b)%nat.
Proof. induction a as [|x a IH]; simpl; [reflexivity | now rewrite IH]. Qed.

Lemma length_padStart4 (n : Z) :
  0 <= n <= 9999 -> String.length (Str.padStart4 (Str.ofZ n)) = 4%nat.
Proof.
  intros H. pose proof (length_ofZ 4 n ltac:(lia) ltac:(simpl; lia)) as L.
  unfold Str.padStart4. rewrite length_append, length_zeros. lia.
Qed.

(** ** The first characters of the ISO format *)

Lemma civil_day_range (day : Z) : 1 <= snd (civil day) <= 31.
Proof.
  unfold civil. cbv zeta. cbn [fst snd].
  set (z := day + 719468).
  pose proof (Z.mod_pos_bound z 146097 ltac:(lia)) as Hdoe.
  set (doe := z mod 146097) in *.
  set (yoe := (doe - doe / 1460 + doe / 36524 - doe / 146096) / 365).
  set (doy := doe - (365 * yoe + yoe / 4 - yoe / 100)).
  assert (Hdoy : 0 <= doy <= 365).
  { unfold doy, yoe.
    pose proof (Z.div_mod doe 1460 ltac:(lia)).
    pose proof (Z.mod_pos_bound doe 1460 ltac:(lia)).
    pose proof (Z.div_mod doe 36524 ltac:(lia)).
    pose proof (Z.mod_pos_bound doe 36524 ltac:(lia)).
    pose proof (Z.div_mod doe 146096 ltac:(lia)).
    pose proof (Z.mod_pos_bound doe 146096 ltac:(lia)).
    set (a := doe / 1460) in *. set (b := doe / 36524) in *. set (c := doe / 146096) in *.
    pose proof (Z.div_mod (doe - a + b - c) 365 ltac:(lia)).
    pose proof (Z.mod_pos_bound (doe - a + b - c) 365 ltac:(lia)).
    set (y := (doe - a + b - c) / 365) in *.
    pose proof (Z.div_mod y 4 ltac:(lia)).
    pose proof (Z.mod_pos_bound y 4 ltac:(lia)).
    pose proof (Z.div_mod y 100 ltac:(lia)).
    pose proof (Z.mod_pos_bound y 100 ltac:(lia)).
    lia. }
  pose proof (Z.div_mod (5 * doy + 2) 153 ltac:(lia)).
  pose proof (Z.mod_pos_bound (5 * doy + 2) 153 ltac:(lia)).
  set (mp := (5 * doy + 2) / 153) in *.
  pose proof (Z.div_mod (153 * mp + 2) 5 ltac:(lia)).
  pose proof (Z.mod_pos_bound (153 * mp + 2) 5 ltac:(lia)).
  lia.
Qed.

(** [(a + b).slice(0, n)] when [a] has at least [n] characters. *)
Lemma substring_append (n : nat) (a b : string) :
  (n <= String.length a)%nat ->
  String.substring 0 n (a ++ b) = String.substring 0 n a.
Proof.
  revert a. induction n as [|n IH]; intros [|x a] H; simpl in *; try lia.
  - now destruct b.
  - reflexivity.
  - f_equal. apply IH. lia.
Qed.

Lemma substring_all (a : string) : String.substring 0 (String.length a) a = a.
Proof. induction a as [|x a IH]; simpl; [reflexivity | now rewrite IH]. Qed.

Lemma substring_substring (n m : nat) (s : string) :
  (n <= m)%nat ->
  String.substring 0 n (String.substring 0 m s) = String.substring 0 n s.
Proof.
  revert m s. induction n as [|n IH]; intros [|m] [|x s] H; simpl; try lia;
    try reflexivity.
  f_equal. apply IH. lia.
Qed.

Lemma length_padStart2_ge (s : string) : (2 <= String.length (Str.padStart2 s))%nat.
Proof.
  unfold Str.padStart2. destruct s as [|a [|b s]]; simpl; lia.
Qed.

Lemma length_padStart6_ge (s : string) : (6 <= String.length (Str.padStart6 s))%nat.
Proof.
  unfold Str.padStart6. rewrite length_append, length_zeros. lia.
Qed.

(** X13: in the years the ISO format writes with four digits the date of an
    equity point is the ten characters [YYYY-MM-DD] of the UTC day, and the
    tick of the axis shows its first seven, [YYYY-MM]. *)
Theorem tick_label_is_year_month (t : Z) :
  0 <= YearFromTime t <= 9999 ->
  let year := Str.padStart4 (Str.ofZ (YearFromTime t)) in
  let month := Str.padStart2 (Str.ofZ (MonthFromTime t + 1)) in
  let day := Str.padStart2 (Str.ofZ (DateFromTime t)) in
  toISODate (Some t) = Some (year ++ "-" ++ month ++ "-" ++ day)%string
  /\ String.length (year ++ "-" ++ month ++ "-" ++ day) = 10%nat
  /\ tickFormatter (year ++ "-" ++ month ++ "-" ++ day) = (year ++ "-" ++ month)%string.
Proof.
  intros Hy year month day.
  assert (Ly : String.length year = 4%nat) by (apply length_padStart4; exact Hy).
  assert (Lm : String.length month = 2%nat).
  { apply length_padStart2. unfold MonthFromTime.
    pose proof (civil_month_range (t / msPerDay)). lia. }
  assert (Ld : String.length day = 2%nat).
  { apply length_padStart2. unfold DateFromTime.
    pose proof (civil_day_range (t / msPerDay)). lia. }
  assert (L : String.length (year ++ "-" ++ month ++ "-" ++ day) = 10%nat).
  { rewrite !length_append, Ly, Lm, Ld. reflexivity. }
  split; [|split; [exact L|]].
  - unfold toISODate, isoYear.
    replace ((0 <=? YearFromTime t) && (YearFromTime t <=? 9999)) with true
      by (symmetry; apply andb_true_iff; split; apply Z.leb_le; lia).
    fold year month day. rewrite <- L at 1. now rewrite substring_all.
  - unfold tickFormatter.
    replace (year ++ "-" ++ month ++ "-" ++ day)%string
      with ((year ++ "-" ++ month) ++ "-" ++ day)%string
      by (now rewrite !append_assoc).
    rewrite substring_append by (rewrite !length_append, Ly, Lm; simpl; lia).
    replace 7%nat with (String.length (year ++ "-" ++ month))
      by (rewrite !length_append, Ly, Lm; reflexivity).
    apply substring_all.
Qed.

(** X14: outside those years the ISO format writes a sign and six digits, and
    the first ten characters stop before the day: two dates of one UTC month
    get the same date string. *)
Theorem expanded_year_date_loses_day (t t' : Z) :
  ~ 0 <= YearFromTime t <= 9999 ->
  YearFromTime t' = YearFromTime t ->
  MonthFromTime t' = MonthFromTime t ->
  toISODate (Some t') = toISODate (Some t).
Proof.
  intros Hy Ey Em. unfold toISODate. rewrite Ey, Em. f_equal.
  set (y := isoYear (YearFromTime t)).
  set (m := Str.padStart2 (Str.ofZ (MonthFromTime t + 1))).
  assert (L : (10 <= String.length (y ++ "-" ++ m))%nat).
  { rewrite !length_append. pose proof (length_padStart2_ge (Str.ofZ (MonthFromTime t + 1))).
    fold m in H. unfold y, isoYear.
    replace ((0 <=? YearFromTime t) && (YearFromTime t <=? 9999)) with false.
    - rewrite length_append.
      pose proof (length_padStart6_ge (Str.ofZ (Z.abs (YearFromTime t)))).
      change (String.length "-") with 1%nat.
      destruct (YearFromTime t <? 0);
        [change (String.length "-") with 1%nat
        | change (String.length "+") with 1%nat]; lia.
    - symmetry. apply andb_false_iff.
      destruct (Z.leb_spec 0 (YearFromTime t)); [right | now left].
      apply Z.leb_gt. lia. }
  replace (y ++ "-" ++ m ++ "-" ++ Str.padStart2 (Str.ofZ (DateFromTime t')))%string
    with ((y ++ "-" ++ m) ++ "-" ++ Str.padStart2 (Str.ofZ (DateFromTime t')))%string
    by (now rewrite !append_assoc).
  replace (y ++ "-" ++ m ++ "-" ++ Str.padStart2 (Str.ofZ (DateFromTime t)))%string
    with ((y ++ "-" ++ m) ++ "-" ++ Str.padStart2 (Str.ofZ (DateFromTime t)))%string
    by (now rewrite !append_assoc).
  rewrite !(substring_append 10 (y ++ "-" ++ m) _ L). reflexivity.
Qed.

(* ================================================================== *)
(** * The page *)
(* ================================================================== *)

(** ** The monthly charts *)

Lemma filter_partition {A : Type} (p : A -> bool) (l : list A) :
  Permutation (filter p l ++ filter (fun x => negb (p x)) l) l.
Proof.
  induction l as [|x l IH]; simpl; [apply perm_nil|].
  destruct (p x); simpl.
  - now apply perm_skip.
  - apply Permutation_sym, Permutation_cons_app, Permutation_sym, IH.
Qed.

Lemma ownKeys_perm {V : Type} (o : Obj.t V) : Permutation (ownKeys o) (Obj.keys o).
Proof.
  unfold ownKeys.
  eapply perm_trans; [|apply (filter_partition isArrayIndex)].
  apply Permutation_app_tail, Permutation_sym, sort_perm.
Qed.

Lemma sort_strings_strict (l : list string) :
  NoDup l ->
  StronglySorted (fun a b => String.ltb a b = true)
                 (sort (fun a b => String.ltb b a) l).
Proof.
  intros Hn.
  apply StronglySorted_strict with (R := fun a b => String.leb a b = true).
  - exact string_leb_ltb.
  - apply (Permutation_NoDup (sort_perm _ _)). exact Hn.
  - apply sort_sorted with (ok := fun _ => True).
    + intros x y _ _. unfold String.ltb, String.leb.
      rewrite String.compare_antisym.
      destruct (String.compare x y); simpl; congruence.
    + intros x y _ _. unfold String.ltb, String.leb.
      rewrite String.compare_antisym.
      destruct (String.compare x y); simpl; congruence.
    + intros x y z. apply string_leb_trans.
    + apply Forall_forall. trivial.
Qed.

Lemma fold_monthStep_NoDup (byMonth : Obj.t number) (keys : list string) :
  forall acc : Obj.t (list MonthlyReturn.t),
  NoDup (Obj.keys acc) ->
  NoDup (Obj.keys (fold_left (monthStep byMonth) keys acc)).
Proof.
  induction keys as [|k keys IH]; intros acc H; [exact H|].
  cbn [fold_left]. apply IH. rewrite monthStep_eq. now apply keys_set_NoDup.
Qed.

Lemma orZero_not_NaN (ret : option number) : isNaN (orZero ret) = false.
Proof. destruct ret as [[s|s| |s m e]|]; reflexivity. Qed.

Lemma chartsOf_spec (m : Obj.t (list MonthlyReturn.t)) (years : list string) :
  (forall y, In y years -> In y (Obj.keys m)) ->
  exists charts,
    chartsOf m years = Some charts
    /\ map fst charts = years
    /\ forall y bars, In (y, bars) charts ->
         exists l, Obj.get m y = Some l /\ bars = barsOf l.
Proof.
  induction years as [|y years IH]; intros H.
  - exists []. repeat split. intros y bars [].
  - destruct IH as [charts [E [F G]]]; [intros y' Hy'; apply H; now right|].
    destruct (In_keys_get m y (H y (or_introl eq_refl))) as [l Hl].
    exists ((y, barsOf l) :: charts). cbn [chartsOf]. rewrite Hl, E.
    split; [reflexivity|]. split; [simpl; now rewrite F|].
    intros y' bars [Heq|Hin]; [|now apply G].
    injection Heq as <- <-. now exists l.
Qed.

Lemma years_perm {V : Type} (m : Obj.t V) :
  Permutation (sort (fun a b => String.ltb b a) (ownKeys m)) (Obj.keys m).
Proof.
  eapply perm_trans; [apply Permutation_sym, sort_perm | apply ownKeys_perm].
Qed.

Lemma monthlyCharts_total (m : Obj.t (list MonthlyReturn.t)) :
  exists charts, monthlyCharts m = Some charts.
Proof.
  destruct (chartsOf_spec m (sort (fun a b => String.ltb b a) (ownKeys m)))
    as [charts [E _]].
  - intros y. apply (Permutation_in _ (years_perm m)).
  - now exists charts.
Qed.

Section Charts.

Variable LocalTZA : Z -> Z.

Local Abbreviation monthReturnsOf := (monthReturnsOf LocalTZA).

Lemma monthReturnsOf_NoDup (rows : list Row) :
  NoDup (Obj.keys (monthReturnsOf rows)).
Proof. apply fold_monthStep_NoDup. constructor. Qed.

(** X15: the monthly charts are built without a throw: one chart for each year
    of the matrix, the years in strictly increasing order of their text, each
    chart with one bar for each entry of its year, in order and named by the
    month, and no bar is NaN. *)
Theorem monthly_charts_well_formed (rows : list Row) :
  exists charts,
    monthlyCharts (monthReturnsOf rows) = Some charts
    /\ StronglySorted (fun a b => String.ltb a b = true) (map fst charts)
    /\ (forall y, In y (map fst charts) <-> Obj.get (monthReturnsOf rows) y <> None)
    /\ forall y bars, In (y, bars) charts ->
         exists l, Obj.get (monthReturnsOf rows) y = Some l
                   /\ map Bar.name bars = map MonthlyReturn.month l
                   /\ Forall (fun b => isNaN (Bar.ret b) = false) bars.
Proof.
  set (m := monthReturnsOf rows).
  set (years := sort (fun a b => String.ltb b a) (ownKeys m)).
  pose proof (years_perm m) as P. fold years in P.
  destruct (chartsOf_spec m years) as [charts [E [F G]]].
  { intros y. apply (Permutation_in _ P). }
  exists charts. split; [exact E|]. rewrite F. split; [|split].
  - apply sort_strings_strict.
    apply (Permutation_NoDup (Permutation_sym (ownKeys_perm m))).
    apply monthReturnsOf_NoDup.
  - intros y. split.
    + intros Hy. destruct (In_keys_get m y (Permutation_in _ P Hy)) as [l ->].
      discriminate.
    + intros Hy. apply (Permutation_in _ (Permutation_sym P)).
      destruct (Obj.get m y) as [l|] eqn:Ey; [|congruence].
      now apply (get_In_keys m y l).
  - intros y bars Hin. destruct (G y bars Hin) as [l [Hl ->]].
    exists l. split; [exact Hl|]. unfold barsOf. split.
    + now rewrite map_map.
    + apply Forall_forall. intros b Hb. apply in_map_iff in Hb.
      destruct Hb as [e [<- _]]. apply orZero_not_NaN.
Qed.

End Charts.

(** ** The states of the page *)

Section PageFacts.

Variable StringToNumber : string -> number.
Variable DateParse : string -> number.
Variable LocalTZA : Z -> Z.

Local Abbreviation toRow := (toRow StringToNumber DateParse).
Local Abbreviation parseSheetData := (parseSheetData StringToNumber DateParse).
Local Abbreviation onFile := (Page.onFile StringToNumber DateParse).
Local Abbreviation step := (Page.step StringToNumber DateParse).
Local Abbreviation run := (Page.run StringToNumber DateParse).
Local Abbreviation render := (Page.render LocalTZA).

Lemma step_valid (st : Page.State) (e : Page.Event) :
  Forall validDate (Page.rows st) -> Forall validDate (Page.rows (step st e)).
Proof.
  intros H. destruct e as [[f|]|f]; simpl; try exact H.
  unfold Page.onFileResume. destruct (Page.sheet f) as [raw|]; [|exact H].
  apply parseSheetData_valid.
Qed.

Lemma run_valid (events : list Page.Event) :
  Forall validDate (Page.rows (run events)).
Proof.
  unfold Page.run. induction events as [|e events IH] using rev_ind.
  - constructor.
  - rewrite fold_left_app. now apply step_valid.
Qed.

Lemma render_valid (st : Page.State) :
  Forall validDate (Page.rows st) ->
  exists v,
    render st = Some v
    /\ Page.label v = (if String.eqb (Page.fileName st) "" then Page.noFile
                       else Page.fileName st)
    /\ (Page.body v = Page.Prompt <-> Page.rows st = [])
    /\ forall s, computeSeries LocalTZA (Page.rows st) = Some s ->
         Page.rows st <> [] ->
         exists monthly,
           Page.body v = Page.Charts (equity s) (drawdown s) monthly.
Proof.
  intros H. unfold Page.render.
  destruct (computeSeries_valid LocalTZA _ H) as [s E]. rewrite E.
  destruct (Page.rows st) as [|r0 rows] eqn:R.
  - eexists. split; [reflexivity|]. split; [reflexivity|].
    split; [tauto|]. intros s' _ Hne. congruence.
  - rewrite computeSeries_eq in E.
    destruct (equityFrom (nav r0) (r0 :: rows)) as [eq|]; [|discriminate].
    injection E as <-. cbn [monthReturnsByYear equity drawdown].
    destruct (monthlyCharts_total (monthReturnsOf LocalTZA (r0 :: rows))) as [charts C].
    rewrite C. eexists. split; [reflexivity|]. split; [reflexivity|].
    cbn [Page.body]. split; [split; discriminate|].
    intros s' Hs' _. injection Hs' as <-. now exists charts.
Qed.

(** X16: in every state the page reaches, whatever files are picked and in
    whatever order their handlers start and resume, rendering does not throw;
    it shows the prompt exactly when there are no rows. *)
Theorem page_renders_in_every_state (events : list Page.Event) :
  exists v,
    render (run events) = Some v
    /\ (Page.body v = Page.Prompt <-> Page.rows (run events) = []).
Proof.
  destruct (render_valid (run events) (run_valid events)) as [v [E [_ [B _]]]].
  now exists v.
Qed.

(** X17: what one upload does to the page, whatever it showed before: the
    label becomes the name of the file; when the file cannot be read the body
    stays as it was (and a page that threw throws again), and when it is read
    the page is drawn, with the prompt exactly if no record of the sheet is
    kept and otherwise with the charts of the series of its rows. *)
Theorem upload_outcome (st : Page.State) (f : Page.File) :
  let label := if String.eqb (Page.name f) "" then Page.noFile else Page.name f in
  match Page.sheet f with
  | None =>
      render (onFile st (Some f))
      = option_map (fun v => {| Page.label := label; Page.body := Page.body v |})
                   (render st)
  | Some raw =>
      exists v,
        render (onFile st (Some f)) = Some v
        /\ Page.label v = label
        /\ (Page.body v = Page.Prompt
            <-> forall r, In r raw -> keep (toRow r) = false)
        /\ forall s,
             computeSeries LocalTZA (parseSheetData raw) = Some s ->
             parseSheetData raw <> [] ->
             exists monthly,
               Page.body v = Page.Charts (equity s) (drawdown s) monthly
  end.
Proof.
  intros label. unfold Page.onFile, Page.onFileStart, Page.onFileResume.
  cbn [Page.rows Page.fileName].
  destruct (Page.sheet f) as [raw|].
  - destruct (render_valid
                {| Page.rows := parseSheetData raw; Page.fileName := Page.name f |}
                (parseSheetData_valid _ _ raw)) as [v [E [L [B C]]]].
    exists v. split; [exact E|]. split; [exact L|].
    cbn [Page.rows] in B, C. split; [|exact C].
    rewrite B. split.
    + intros Hnil r Hr.
      destruct (keep (toRow r)) eqn:K; [|reflexivity].
      assert (Hin : In (toRow r) (parseSheetData raw)).
      { apply parseSheetData_In. split; [now apply in_map | exact K]. }
      rewrite Hnil in Hin. contradiction.
    + apply parseSheetData_all_invalid.
  - unfold Page.render. cbn [Page.rows Page.fileName].
    destruct (computeSeries LocalTZA (Page.rows st)) as [s|]; [|reflexivity].
    destruct (Page.rows st) as [|r0 rows]; [reflexivity|].
    destruct (monthlyCharts (monthReturnsByYear s)) as [m|]; reflexivity.
Qed.

End PageFacts.

(* ================================================================== *)
(** * The program on concrete sheets *)
(* ================================================================== *)

(** The calendar: the epoch, the day before it, two leap days, the first
    day of the year 0 and the last of the year -1. *)
Example civil_days :
  civil 0 = (1970, 1, 1) /\ civil (-1) = (1969, 12, 31)
  /\ civil 11016 = (2000, 2, 29) /\ civil 19782 = (2024, 2, 29)
  /\ civil (-719528) = (0, 1, 1) /\ civil (-719529) = (-1, 12, 31).
Proof. vm_compute. repeat split; reflexivity. Qed.

(** [toISOString().slice(0, 10)] in and out of the years 0..9999. *)
Example toISODate_years :
  toISODate (Some 1675123200000) = Some "2023-01-31"%string
  /\ toISODate (Some (-100000000000000)) = Some "-001199-02"%string
  /\ toISODate (Some maxTime) = Some "+275760-09"%string
  /\ toISODate None = None.
Proof. vm_compute. repeat split; reflexivity. Qed.

(** Rounding to two decimals: [1.005] is the binary64 number just below
    1.005 and goes down, [0.125] is a tie and goes up, [-0.001] gives
    [-0], and [(1.1 * 100)], which is [110.00000000000001], gives 110. *)
Example toFixed2_values :
  toFixed2 (ofRatio false 1005 1000) = Num.ofZ 1
  /\ toFixed2 (ofRatio false 125 1000) = ofRatio false 13 100
  /\ toFixed2 (ofRatio true 1 1000) = S754_zero true
  /\ toFixed2 (mul (ofRatio false 11 10) hundred) = Num.ofZ 110.
Proof. vm_compute. repeat split; reflexivity. Qed.

(** [k.split("-")] and the key before, in a year after 0 and in one
    before. *)
Example split_keys :
  Str.split "-" "2024-01" = ["2024"; "01"]%string
  /\ prevKey "2024" "01" = "2023-12"%string
  /\ prevKey "2024" "03" = "2024-02"%string
  /\ Str.split "-" "-1199-03" = [""; "1199"; "03"]%string
  /\ prevKey "" "1199" = "-1198"%string.
Proof. vm_compute. repeat split; reflexivity. Qed.

(** The scenario of the specification, end to end. *)
Example scenario_series :
  Runtime.compute (Runtime.parse scenario)
  = Some {| equity :=
              [{| EquityPoint.date := "2023-01-31"; EquityPoint.value := Num.ofZ 100 |};
               {| EquityPoint.date := "2023-02-28"; EquityPoint.value := Num.ofZ 110 |};
               {| EquityPoint.date := "2023-03-31"; EquityPoint.value := Num.ofZ 99 |}];
            drawdown :=
              [{| DrawdownPoint.date := "2023-01-31"; DrawdownPoint.drawdown := PZero |};
               {| DrawdownPoint.date := "2023-02-28"; DrawdownPoint.drawdown := PZero |};
               {| DrawdownPoint.date := "2023-03-31"; DrawdownPoint.drawdown := Num.ofZ (-10) |}];
            monthReturnsByYear :=
              [("2023"%string,
                [{| MonthlyReturn.month := "01"; MonthlyReturn.ret := None |};
                 {| MonthlyReturn.month := "02"; MonthlyReturn.ret := Some (Num.ofZ 10) |};
                 {| MonthlyReturn.month := "03"; MonthlyReturn.ret := Some (Num.ofZ (-10)) |}])] |}.
Proof. vm_compute. reflexivity. Qed.

(** Two records of May 2023: the bucket holds the later nav. *)
Example sameMonth_bucket :
  Obj.get (byMonthOf Runtime.LocalTZA (Runtime.parse sameMonth)) "2023-05"
  = Some (Num.ofZ 105).
Proof. vm_compute. reflexivity. Qed.

(** No December 2023, and the return of January 2024 is [null], with
    November at hand. *)
Example gap_return_is_null :
  option_map monthReturnsByYear (Runtime.compute (Runtime.parse gap))
  = Some [("2023"%string, [{| MonthlyReturn.month := "11"; MonthlyReturn.ret := None |}]);
          ("2024"%string, [{| MonthlyReturn.month := "01"; MonthlyReturn.ret := None |}])].
Proof. vm_compute. reflexivity. Qed.

(** C1, at the input where the program departs from it: in the year
    -1199 the key of March is ["-1199-03"], whose pieces at the hyphens are
    [""], ["1199"] and ["03"], so the program takes ["1199"] for the month
    and looks the key ["-1198"] up.  February is in the bucket with a
    positive nav and the return of March is [null] all the same. *)
Theorem return_before_common_era_is_null :
  byMonthOf Runtime.LocalTZA (Runtime.parse beforeCommonEra)
  = [("-1199-02"%string, Num.ofZ 100); ("-1199-03"%string, Num.ofZ 110)]
  /\ prevKey (nth 0 (Str.split "-" "-1199-03") "undefined"%string)
             (nth 1 (Str.split "-" "-1199-03") "undefined"%string)
     = "-1198"%string
  /\ option_map monthReturnsByYear (Runtime.compute (Runtime.parse beforeCommonEra))
     = Some [(""%string,
              [{| MonthlyReturn.month := "1199"; MonthlyReturn.ret := None |};
               {| MonthlyReturn.month := "1199"; MonthlyReturn.ret := None |}])].
Proof. vm_compute. repeat split; reflexivity. Qed.

(** C10, at the input where the program departs from it: the two months
    of the year -1199 are filed under the year [""] with the same month
    string. *)
Theorem months_repeat_before_common_era :
  option_map (fun s => option_map (map MonthlyReturn.month)
                                  (Obj.get (monthReturnsByYear s) ""))
             (Runtime.compute (Runtime.parse beforeCommonEra))
  = Some (Some ["1199"%string; "1199"%string]).
Proof. vm_compute. reflexivity. Qed.

(** C2 as stated fails: a first nav of zero makes every drawdown NaN, which
    is not at most zero. *)
Lemma zero_base_drawdown_is_NaN :
  option_map (fun s => map DrawdownPoint.drawdown (drawdown s))
             (Runtime.compute (Runtime.parse zeroBase))
  = Some [NaN; NaN]
  /\ leb NaN PZero = false.
Proof. vm_compute. split; reflexivity. Qed.

Lemma parse_scenario : Runtime.parse scenario = scenarioRows.
Proof. vm_compute. reflexivity. Qed.

Lemma parse_tie : Runtime.parse tie = tieRows.
Proof. vm_compute. reflexivity. Qed.

Lemma scenarioRows_valid : Forall validDate scenarioRows.
Proof. repeat constructor. Qed.

(** [drawdown_nonpositive] on the rows of the scenario. *)
Lemma drawdown_nonpositive_scenario :
  Forall validDate scenarioRows
  /\ finiteEquity scenarioRows
  /\ exists s, Runtime.compute scenarioRows = Some s
               /\ Forall (fun d => leb (DrawdownPoint.drawdown d) PZero = true)
                         (drawdown s).
Proof.
  assert (Hf : finiteEquity scenarioRows).
  { split; [reflexivity|].
    repeat (apply Forall_cons; [vm_compute; reflexivity|]). apply Forall_nil. }
  split; [exact scenarioRows_valid|]. split; [exact Hf|].
  exact (drawdown_nonpositive Runtime.LocalTZA scenarioRows scenarioRows_valid Hf).
Defined.

(** C3 as stated fails: a record whose nav is coerced to [Infinity] is
    kept. *)
Lemma infinite_nav_is_kept :
  Runtime.parse infiniteNav = [{| date := Some 1675123200000; nav := PInf |}]
  /\ isFinite PInf = false.
Proof. vm_compute. split; reflexivity. Qed.

(** C5 as stated fails for dates of day precision: two records of 31
    January 2023, noon before midnight in the sheet, are both kept and
    come out in the other order; their date strings are the same. *)
Lemma same_day_records_are_reordered :
  filter keep (map (toRow Runtime.StringToNumber Runtime.DateParse) sameDay)
  = [sameDayNoon; sameDayMidnight]
  /\ Runtime.parse sameDay = [sameDayMidnight; sameDayNoon]
  /\ toISODate (date sameDayNoon) = Some "2023-01-31"%string
  /\ toISODate (date sameDayMidnight) = Some "2023-01-31"%string.
Proof. vm_compute. repeat split; reflexivity. Qed.

(** C9 as stated fails: the only record of [infiniteNav] has a nav that
    is not finite, so the sheet has no valid record, and yet the three
    outputs are not empty. *)
Lemma infinite_only_sheet_gives_series :
  existsb validRecord
          (map (toRow Runtime.StringToNumber Runtime.DateParse) infiniteNav)
  = false
  /\ Runtime.compute (Runtime.parse infiniteNav)
     = Some {| equity :=
                 [{| EquityPoint.date := "2023-01-31"; EquityPoint.value := NaN |}];
               drawdown :=
                 [{| DrawdownPoint.date := "2023-01-31";
                     DrawdownPoint.drawdown := NaN |}];
               monthReturnsByYear :=
                 [("2023"%string,
                   [{| MonthlyReturn.month := "01"; MonthlyReturn.ret := None |}])] |}.
Proof. vm_compute. repeat split; reflexivity. Qed.

(** C4 as stated fails: [Infinity > 0], and then the first equity value is
    NaN. *)
Lemma infinite_base_equity_is_NaN :
  gtb PInf PZero = true
  /\ option_map (fun s => map EquityPoint.value (equity s))
                (Runtime.compute (Runtime.parse infiniteNav))
     = Some [NaN].
Proof. vm_compute. split; reflexivity. Qed.

(** [first_equity_is_100] on the rows of the scenario. *)
Lemma first_equity_is_100_scenario :
  exists s pt pts,
    Runtime.compute scenarioRows = Some s
    /\ equity s = pt :: pts
    /\ EquityPoint.value pt = hundred.
Proof.
  apply (first_equity_is_100 Runtime.LocalTZA
           {| date := Some 1675123200000; nav := Num.ofZ 100 |}
           [{| date := Some 1677542400000; nav := Num.ofZ 110 |};
            {| date := Some 1680220800000; nav := Num.ofZ 99 |}]).
  - exact scenarioRows_valid.
  - reflexivity.
  - reflexivity.
Defined.

(** C7 as stated fails: the second point of [tie] equals the peak held, is
    no new peak, and has drawdown zero. *)
Lemma held_peak_has_zero_drawdown :
  option_map (fun s => (map EquityPoint.value (equity s),
                        map DrawdownPoint.drawdown (drawdown s)))
             (Runtime.compute (Runtime.parse tie))
  = Some ([hundred; hundred], [PZero; PZero])
  /\ gtb hundred hundred = false.
Proof. vm_compute. split; reflexivity. Qed.

Lemma compute_tie : Runtime.compute tieRows = Some tieSeries.
Proof. vm_compute. reflexivity. Qed.

(** [drawdown_zero_at_running_max] on the second point of [tie]. *)
Lemma drawdown_zero_at_running_max_tie :
  exists d, nth_error (drawdown tieSeries) 1 = Some d
            /\ DrawdownPoint.drawdown d = PZero.
Proof.
  apply (drawdown_zero_at_running_max Runtime.LocalTZA
           tieRows tieSeries [tieFirst] tieSecond []).
  - exact compute_tie.
  - intros r0 H. injection H as <-. reflexivity.
  - reflexivity.
  - reflexivity.
  - repeat constructor.
Defined.

(** C8 as stated fails: an empty nav cell is read as zero and the record is
    kept. *)
Lemma empty_nav_cell_is_kept :
  Runtime.parse emptyNavCell = [{| date := Some 1675123200000; nav := PZero |}]
  /\ gtb PZero PZero = false.
Proof. vm_compute. split; reflexivity. Qed.

(** [parseSheetData_nav_not_NaN] on the first row of the scenario. *)
Lemma parseSheetData_nav_not_NaN_scenario :
  In {| date := Some 1675123200000; nav := Num.ofZ 100 |} (Runtime.parse scenario)
  /\ isNaN (Num.ofZ 100) = false
  /\ isNaNDate (Some 1675123200000) = false.
Proof.
  assert (H : In {| date := Some 1675123200000; nav := Num.ofZ 100 |}
                 (Runtime.parse scenario))
    by (rewrite parse_scenario; left; reflexivity).
  split; [exact H|].
  exact (parseSheetData_nav_not_NaN Runtime.StringToNumber Runtime.DateParse
           scenario _ H).
Defined.

(** [monthly_return_uses_exact_predecessor] on February 2023 of the
    scenario. *)
Lemma monthly_return_uses_exact_predecessor_scenario :
  In {| date := Some 1677542400000; nav := Num.ofZ 110 |} scenarioRows
  /\ 0 <= localYear Runtime.LocalTZA 1677542400000
  /\ exists v l,
       Obj.get (byMonthOf Runtime.LocalTZA scenarioRows)
               (monthKeyOf (localYear Runtime.LocalTZA 1677542400000)
                           (localMonth Runtime.LocalTZA 1677542400000))
       = Some v
       /\ Obj.get (monthReturnsOf Runtime.LocalTZA scenarioRows)
                  (Str.ofZ (localYear Runtime.LocalTZA 1677542400000))
          = Some l
       /\ In {| MonthlyReturn.month :=
                  Str.padStart2 (Str.ofZ (localMonth Runtime.LocalTZA 1677542400000));
                MonthlyReturn.ret :=
                  monthRet v
                    (Obj.get (byMonthOf Runtime.LocalTZA scenarioRows)
                       (precedingKey (localYear Runtime.LocalTZA 1677542400000)
                                     (localMonth Runtime.LocalTZA 1677542400000))) |}
             l.
Proof.
  assert (Hin : In {| date := Some 1677542400000; nav := Num.ofZ 110 |} scenarioRows)
    by (right; left; reflexivity).
  assert (Hy : 0 <= localYear Runtime.LocalTZA 1677542400000)
    by (vm_compute; discriminate).
  split; [exact Hin|]. split; [exact Hy|].
  exact (monthly_return_uses_exact_predecessor Runtime.LocalTZA scenarioRows
           _ 1677542400000 Hin eq_refl Hy).
Defined.

(** [months_strictly_increase] on the year 2023 of the scenario. *)
Lemma months_strictly_increase_scenario :
  StronglySorted
    (fun a b => String.ltb (MonthlyReturn.month a) (MonthlyReturn.month b) = true)
    [{| MonthlyReturn.month := "01"; MonthlyReturn.ret := None |};
     {| MonthlyReturn.month := "02"; MonthlyReturn.ret := Some (Num.ofZ 10) |};
     {| MonthlyReturn.month := "03"; MonthlyReturn.ret := Some (Num.ofZ (-10)) |}].
Proof.
  apply (months_strictly_increase Runtime.LocalTZA scenarioRows "2023").
  - exact scenarioRows_valid.
  - discriminate.
  - vm_compute. reflexivity.
Defined.

(** ** The further properties on concrete sheets *)

Lemma parse_gap : Runtime.parse gap = gapRows.
Proof. vm_compute. reflexivity. Qed.

Lemma parse_zeroBase : Runtime.parse zeroBase = zeroBaseRows.
Proof. vm_compute. reflexivity. Qed.

(** [return_null_without_predecessor] on January 2024 of [gap]: there is
    no row of December 2023. *)
Lemma return_null_without_predecessor_gap :
  exists l,
    Obj.get (monthReturnsOf Runtime.LocalTZA gapRows) "2024" = Some l
    /\ In {| MonthlyReturn.month := "01"; MonthlyReturn.ret := None |} l.
Proof.
  refine (return_null_without_predecessor Runtime.LocalTZA gapRows
            {| date := Some 1706659200000; nav := Num.ofZ 110 |} 1706659200000
            _ eq_refl _ _).
  - right; left; reflexivity.
  - vm_compute; discriminate.
  - intros r' [<-|[<-|[]]]; vm_compute; discriminate.
Defined.

(** [parseSheetData_order_independent] on the scenario, whose three
    dates differ. *)
Lemma parseSheetData_order_independent_scenario :
  Runtime.parse scenarioSwapped = Runtime.parse scenario.
Proof.
  refine (parseSheetData_order_independent Runtime.StringToNumber Runtime.DateParse
            scenario scenarioSwapped _ _).
  - apply perm_swap.
  - vm_compute. repeat constructor; simpl; intuition discriminate.
Defined.

(** [series_point_per_row] on the rows of the scenario. *)
Lemma series_point_per_row_scenario :
  exists s,
    Runtime.compute scenarioRows = Some s
    /\ map (fun p => Some (EquityPoint.date p)) (equity s)
       = map (fun r => toISODate (date r)) scenarioRows
    /\ map EquityPoint.value (equity s)
       = map (equityValue (Num.ofZ 100)) scenarioRows
    /\ map DrawdownPoint.date (drawdown s) = map EquityPoint.date (equity s).
Proof.
  exact (series_point_per_row Runtime.LocalTZA _ _ scenarioRows_valid).
Defined.

(** [equity_NaN_iff] on the rows of the scenario. *)
Lemma equity_NaN_iff_scenario :
  exists s,
    Runtime.compute scenarioRows = Some s
    /\ map (fun p => isNaN (EquityPoint.value p)) (equity s)
       = map (fun r => undefinedQuotient (nav r) (Num.ofZ 100)) scenarioRows.
Proof.
  refine (equity_NaN_iff Runtime.LocalTZA _ _ scenarioRows_valid _).
  repeat constructor.
Defined.

(** [zero_base_ruins_series] on the rows of [zeroBase]. *)
Lemma zero_base_ruins_series_zeroBase :
  exists s,
    Runtime.compute zeroBaseRows = Some s
    /\ Forall (fun p => isFinite (EquityPoint.value p) = false) (equity s)
    /\ Forall (fun d => isNaN (DrawdownPoint.drawdown d) = true) (drawdown s).
Proof.
  refine (zero_base_ruins_series Runtime.LocalTZA
            {| date := Some 1675123200000; nav := PZero |}
            [{| date := Some 1677542400000; nav := Num.ofZ 100 |}] _ eq_refl).
  repeat constructor.
Defined.

(** [drawdown_from_running_max] on the second point of [tie]. *)
Lemma drawdown_from_running_max_tie :
  nth_error (drawdown tieSeries) 1
  = Some {| DrawdownPoint.date := "2023-02-28";
            DrawdownPoint.drawdown :=
              toFixed2 (mul (div (sub hundred (peakAfter NInf [tieFirst; tieSecond]))
                                 (peakAfter NInf [tieFirst; tieSecond]))
                            hundred) |}
  /\ isNaN (peakAfter NInf [tieFirst; tieSecond]) = false
  /\ (peakAfter NInf [tieFirst; tieSecond] = NInf
      \/ exists q, In q [tieFirst; tieSecond]
                   /\ peakAfter NInf [tieFirst; tieSecond] = EquityPoint.value q)
  /\ forall q, In q [tieFirst; tieSecond] -> isNaN (EquityPoint.value q) = false ->
               leb (EquityPoint.value q) (peakAfter NInf [tieFirst; tieSecond]) = true.
Proof.
  exact (drawdown_from_running_max Runtime.LocalTZA tieRows tieSeries
           [tieFirst] tieSecond [] compute_tie eq_refl).
Defined.

(** [monthly_returns_not_NaN] on February 2023 of the scenario. *)
Lemma monthly_returns_not_NaN_scenario : isNaN (Num.ofZ 10) = false.
Proof.
  refine (monthly_returns_not_NaN Runtime.LocalTZA scenarioRows "2023"
            [{| MonthlyReturn.month := "01"; MonthlyReturn.ret := None |};
             {| MonthlyReturn.month := "02"; MonthlyReturn.ret := Some (Num.ofZ 10) |};
             {| MonthlyReturn.month := "03"; MonthlyReturn.ret := Some (Num.ofZ (-10)) |}]
            {| MonthlyReturn.month := "02"; MonthlyReturn.ret := Some (Num.ofZ 10) |}
            (Num.ofZ 10) _ _ _ eq_refl).
  - repeat constructor.
  - vm_compute. reflexivity.
  - right; left; reflexivity.
Defined.

(** [tick_label_is_year_month] on 31 January 2023. *)
Lemma tick_label_is_year_month_2023 :
  toISODate (Some 1675123200000) = Some "2023-01-31"%string
  /\ String.length "2023-01-31" = 10%nat
  /\ tickFormatter "2023-01-31" = "2023-01"%string.
Proof.
  refine (tick_label_is_year_month 1675123200000 _).
  vm_compute. split; discriminate.
Defined.

(** [expanded_year_date_loses_day] on the first two days of the year
    10000: both are written ["+010000-01"]. *)
Lemma expanded_year_date_loses_day_10000 :
  toISODate (Some secondDay10000) = toISODate (Some newYear10000)
  /\ toISODate (Some newYear10000) = Some "+010000-01"%string.
Proof.
  split; [|vm_compute; reflexivity].
  refine (expanded_year_date_loses_day newYear10000 secondDay10000 _ eq_refl eq_refl).
  assert (E : YearFromTime newYear10000 = 10000) by (vm_compute; reflexivity).
  rewrite E. lia.
Defined.
